(** * XOSS database browser: listing, cache, download engine, history

    A shallow embedding of [v5.py] (class [AstronomyDBBrowser]) and the
    properties of its listing filter, directory cache, resumable download
    engine, batch orchestrator and history ledger.

    Conventions of the embedding.
    - A Python [str] is a Rocq [string] holding its UTF-8 bytes.  Substring
      and prefix tests on valid UTF-8 agree with the tests on code points.
    - A Python [float] is a binary64 float of the kernel; an instant is a
      number of microseconds.
    - Widgets, dialogs, the status line, the progress bar and the log file are
      not part of the model; neither is the persistence of the cache and of
      the history to disk (both swallow their own errors).
    - The remote server, the local disk's refusals, the clock and the cancel
      button are an environment the code reads from; what the code asks of
      it is kept in a trace.  One environment stands for the outside during
      one call: a statement about two calls takes two environments.
    - An exception is known by its text, which is all the code looks at. *)

From Stdlib Require Import String Ascii ZArith List Floats Uint63 Lia Bool Sorted.
From stdpp Require Import gmap strings list pretty.
Import ListNotations.
Open Scope string_scope.

(** ** Python string primitives *)

Module Py.

(** [s.startswith(p)] *)
Fixpoint startswith (s p : string) {struct p} : bool :=
  match p, s with
  | EmptyString, _ => true
  | String a p', String b s' => Ascii.eqb a b && startswith s' p'
  | String _ _, EmptyString => false
  end.

(** [p in s] *)
Fixpoint contains (p s : string) : bool :=
  startswith s p ||
  match s with
  | EmptyString => false
  | String _ s' => contains p s'
  end.

(** [s.endswith(c)] for a one-character suffix, and [s[:-1]]. *)
Fixpoint endswith_char (s : string) (c : ascii) : bool :=
  match s with
  | EmptyString => false
  | String a EmptyString => Ascii.eqb a c
  | String _ s' => endswith_char s' c
  end.

Fixpoint drop_last (s : string) : string :=
  match s with
  | EmptyString => EmptyString
  | String _ EmptyString => EmptyString
  | String a s' => String a (drop_last s')
  end.

(** [s.lower()] on the ASCII letters; bytes of other code points are
    untouched (no non-ASCII letter lowers to an ASCII one that matters to the
    only use of [lower] in the program). *)
Definition lower_char (c : ascii) : ascii :=
  let n := nat_of_ascii c in
  if (65 <=? n)%nat && (n <=? 90)%nat then ascii_of_nat (n + 32) else c.

Fixpoint lower (s : string) : string :=
  match s with
  | EmptyString => EmptyString
  | String c s' => String (lower_char c) (lower s')
  end.

(** [s.split(sep)] for a one-character separator. *)
Fixpoint split (sep : ascii) (s : string) : list string :=
  match s with
  | EmptyString => [EmptyString]
  | String c s' =>
      if Ascii.eqb c sep then EmptyString :: split sep s'
      else match split sep s' with
           | x :: xs => String c x :: xs
           | [] => [String c EmptyString]
           end
  end.

(** [s.rstrip(c)] *)
Fixpoint rstrip (c : ascii) (s : string) : string :=
  match s with
  | EmptyString => EmptyString
  | String a s' =>
      match rstrip c s' with
      | EmptyString => if Ascii.eqb a c then EmptyString else String a EmptyString
      | r => String a r
      end
  end.

(** [s.replace(c, d)] for single characters. *)
Fixpoint replace (c d : ascii) (s : string) : string :=
  match s with
  | EmptyString => EmptyString
  | String a s' => String (if Ascii.eqb a c then d else a) (replace c d s')
  end.

(** The ASCII white space of [str.isspace]: TAB, LF, VT, FF, CR, FS, GS, RS,
    US and the blank.  The other blanks of Unicode (U+0085, U+00A0, U+3000 and
    the like), which [str.strip] and [str.split] take too, are outside the
    model: the statements on [strip] and [words] are about text whose blanks
    are those of ASCII. *)
Definition isspace (c : ascii) : bool :=
  let n := nat_of_ascii c in
  ((9 <=? n)%nat && (n <=? 13)%nat) || ((28 <=? n)%nat && (n <=? 32)%nat).

(** [s.split()]: the maximal runs of non-blank characters. *)
Fixpoint words_aux (cur : string) (s : string) : list string :=
  match s with
  | EmptyString => match cur with EmptyString => [] | _ => [cur] end
  | String c s' =>
      if isspace c then
        match cur with
        | EmptyString => words_aux EmptyString s'
        | _ => cur :: words_aux EmptyString s'
        end
      else words_aux (cur ++ String c EmptyString) s'
  end.

Definition words (s : string) : list string := words_aux EmptyString s.

(** [s.strip()] *)
Fixpoint lstrip_space (s : string) : string :=
  match s with
  | EmptyString => EmptyString
  | String c s' => if isspace c then lstrip_space s' else s
  end.

Fixpoint rstrip_space (s : string) : string :=
  match s with
  | EmptyString => EmptyString
  | String a s' =>
      match rstrip_space s' with
      | EmptyString => if isspace a then EmptyString else String a EmptyString
      | r => String a r
      end
  end.

Definition strip (s : string) : string := rstrip_space (lstrip_space s).

(** [' '.join(l)] *)
Fixpoint join (sep : string) (l : list string) : string :=
  match l with
  | [] => EmptyString
  | [x] => x
  | x :: xs => x ++ sep ++ join sep xs
  end.

(** [l[-2]]; [None] is Python's [IndexError]. *)
Definition item_m2 {A} (l : list A) : option A :=
  match rev l with
  | _ :: x :: _ => Some x
  | _ => None
  end.

(** [urllib.parse.unquote]: every [%XY] with two hexadecimal digits becomes
    the byte [0xXY]; a [%] not followed by two hexadecimal digits stays.  (The
    decoded bytes are read back as UTF-8; undecodable sequences, which Python
    replaces by U+FFFD, are outside the model.) *)
Definition hex_digit (c : ascii) : option nat :=
  let n := nat_of_ascii c in
  if (48 <=? n)%nat && (n <=? 57)%nat then Some (n - 48)
  else if (65 <=? n)%nat && (n <=? 70)%nat then Some (n - 55)
  else if (97 <=? n)%nat && (n <=? 102)%nat then Some (n - 87)
  else None.

Definition percent : ascii := ascii_of_nat 37.

Fixpoint unquote (s : string) : string :=
  match s with
  | EmptyString => EmptyString
  | String c s' =>
      if Ascii.eqb c percent then
        match s' with
        | String h (String l rest) =>
            match hex_digit h, hex_digit l with
            | Some a, Some b => String (ascii_of_nat (16 * a + b)) (unquote rest)
            | _, _ => String c (unquote s')
            end
        | _ => String c (unquote s')
        end
      else String c (unquote s')
  end.

(** [os.path.join(a, b)] as [posixpath] has it. *)
Definition slash : ascii := ascii_of_nat 47.

Definition path_join (a b : string) : string :=
  if startswith b (String slash EmptyString) then b
  else if String.eqb a EmptyString || endswith_char a slash then a ++ b
  else a ++ String slash b.

(** [str(n)] for an integer. *)
Definition str_of_Z (n : Z) : string := pretty n.

End Py.

(** ** The listing parser *)

(** One hyperlink of the [<pre>] block as BeautifulSoup hands it over:
    [a.text], [a.get('href', "")] and the text node that follows the link
    ([None] when there is none).  What follows the link may be a tag instead
    of text: [next_sibling.strip()] then looks for a child tag named [strip]
    and calls what it finds, which as a rule raises ([a_sibling_error] is the
    text of the exception then, and [a_next_sibling] plays no part). *)
Record anchor := {
  a_text : string;
  a_href : string;
  a_next_sibling : option string;
  a_sibling_error : option string
}.

(** An entry of [dir_items]. *)
Record dir_item := {
  name : string;
  href : string;
  date : string;
  size : string;
  file_type : string;
  full_url : string
}.

Definition UNKNOWN : string := "未知".
Definition DIRECTORY : string := "目录".
Definition FILE : string := "文件".

(** [x in (a, b, ...)] *)
Definition in_tuple (x : string) (t : list string) : bool :=
  existsb (String.eqb x) t.

(** [any(l)] *)
Definition any (l : list bool) : bool := existsb (fun b => b) l.

Definition _should_skip_item (name href : string) : bool :=
  let skip_conditions :=
    [ in_tuple name ["."; ".."];
      in_tuple href ["../"; ".."; "./"; "."];
      Py.startswith href "../" && (3 <? String.length href)%nat;
      Py.contains "parent directory" (Py.lower name);
      Py.contains "上级目录" name ] in
  any skip_conditions.

(** The listing filter as the specification words it: the four dotted
    names are matched against the name as well as against the link. *)
Definition spec_should_skip (name href : string) : bool :=
  in_tuple name ["."; ".."; "./"; "../"]
  || in_tuple href ["."; ".."; "./"; "../"]
  || (Py.startswith href "../" && (3 <? String.length href)%nat)
  || Py.contains "parent directory" (Py.lower name)
  || Py.contains "上级目录" name.

Definition nonempty (s : string) : bool := negb (String.eqb s EmptyString).

Definition _parse_file_info (a_tag : anchor) : string * string :=
  match a_next_sibling a_tag with
  | None => (UNKNOWN, UNKNOWN)
  | Some next_sibling =>
      if nonempty next_sibling then
        let next_sibling := Py.strip next_sibling in
        if nonempty next_sibling then
          match Py.words next_sibling with
          | p0 :: p1 :: p2 :: _ =>
              (Py.join " " [p0; p1], if String.eqb p2 "-" then UNKNOWN else p2)
          | _ => (UNKNOWN, UNKNOWN)
          end
        else (UNKNOWN, UNKNOWN)
      else (UNKNOWN, UNKNOWN)
  end.

Section Parser.
(** [urllib.parse.urljoin] *)
Variable urljoin : string -> string -> string.

(** The body of the loop over [a_tags]; [None] is [continue]. *)
Definition parse_anchor (current_url : string) (a : anchor) : option dir_item :=
  let name := if nonempty (a_text a) then Py.strip (a_text a) else EmptyString in
  let href := a_href a in
  if _should_skip_item name href then None
  else if negb (nonempty href) then None
  else
    let full_url := urljoin current_url href in
    let '(date, size) := _parse_file_info a in
    let file_type :=
      if Py.endswith_char name Py.slash || Py.endswith_char href Py.slash
      then DIRECTORY else FILE in
    Some {| name := name; href := href; date := date; size := size;
            file_type := file_type; full_url := full_url |}.

Definition parse_anchors (current_url : string) (a_tags : list anchor) : list dir_item :=
  omap (parse_anchor current_url) a_tags.

(** The exception that ends the loop over [a_tags], if any: that of the first
    link that is neither skipped nor without target and on whose sibling
    [_parse_file_info] raises. *)
Fixpoint parse_error (current_url : string) (a_tags : list anchor) : option string :=
  match a_tags with
  | [] => None
  | a :: rest =>
      match parse_anchor current_url a, a_sibling_error a with
      | Some _, Some message => Some message
      | _, _ => parse_error current_url rest
      end
  end.
End Parser.

(** ** Sorting by size: [parse_size] of [sort_column] *)

(** What [parse_size] returns: the integer [0] or a float. *)
Inductive number :=
  | PyInt (n : Z)
  | PyFloat (f : float).

Section ParseSize.
(** Python's [float(s)]; [None] is the [ValueError]. *)
Variable py_float : string -> option float.

(** The body of the [try]; [None] when it raises. *)
Definition parse_size_try (size_str : string) : option number :=
  if String.eqb size_str UNKNOWN then Some (PyInt 0)
  else if Py.endswith_char size_str "K" then
    f ← py_float (Py.drop_last size_str); Some (PyFloat (f * 1024))
  else if Py.endswith_char size_str "M" then
    f ← py_float (Py.drop_last size_str); Some (PyFloat (f * 1024 * 1024))
  else if Py.endswith_char size_str "G" then
    f ← py_float (Py.drop_last size_str); Some (PyFloat (f * 1024 * 1024 * 1024))
  else f ← py_float size_str; Some (PyFloat f).

Definition parse_size (size_str : string) : number :=
  match parse_size_try size_str with
  | Some n => n
  | None => PyInt 0
  end.
End ParseSize.

(** A reader of plain decimal literals, [digits] or [digits.digits], to run
    [parse_size] on; on these it returns what [float] returns as long as the
    digits fit 15 places. *)
Definition digit (c : ascii) : option Z :=
  let n := nat_of_ascii c in
  if (48 <=? n)%nat && (n <=? 57)%nat then Some (Z.of_nat (n - 48)) else None.

Fixpoint digits (acc : Z) (s : string) : option (Z * string) :=
  match s with
  | EmptyString => Some (acc, EmptyString)
  | String c s' =>
      match digit c with
      | Some d => digits (10 * acc + d)%Z s'
      | None => Some (acc, s)
      end
  end.

Definition float_of_Z (n : Z) : float := PrimFloat.of_uint63 (Uint63.of_Z n).

Definition decimal_float (s : string) : option float :=
  match s with
  | EmptyString => None
  | String c _ =>
      match digit c, digits 0 s with
      | Some _, Some (n, EmptyString) => Some (float_of_Z n)
      | Some _, Some (n, String dot frac) =>
          if Ascii.eqb dot "." then
            match digits 0 frac with
            | Some (m, EmptyString) =>
                let k := String.length frac in
                Some (float_of_Z (n * 10 ^ Z.of_nat k + m) / float_of_Z (10 ^ Z.of_nat k))%float
            | _ => None
            end
          else None
      | _, _ => None
      end
  end.

(** ** The program state, its environment, and exceptions *)

(** A [strftime("%Y-%m-%d %H:%M:%S")] string, read as the whole second it
    denotes, or a string [strptime] rejects. *)
Inductive time_string :=
  | TimeString (seconds : Z)
  | BadTimeString.

(** Instants ([datetime]) are counted in microseconds. *)
Definition strftime (t : Z) : time_string := TimeString (t / 1000000).

Definition strptime (s : time_string) : option Z :=
  match s with
  | TimeString sec => Some (sec * 1000000)%Z
  | BadTimeString => None
  end.

(** A value of [self.directory_cache]: a JSON object whose keys may be
    missing. *)
Record cache_entry := {
  ce_dir_items : option (list dir_item);
  ce_content : option (list dir_item);
  ce_cache_time : option time_string
}.

(** An element of [self.download_history]. *)
Record record := {
  r_url : string;
  r_local_path : string;
  r_name : string;
  r_status : string;
  r_time : time_string
}.

Definition SUCCESS : string := "成功".
Definition FAILURE : string := "失败".
Definition MAX_HISTORY : nat := 1000.

(** What the program asks of the outside, in the order it asks.  An event is
    one call of a library function with its arguments: [requests.head],
    [urllib.request.urlopen], [session.get] for a listing, [open] of a
    download target and [os.makedirs].  What a library does within one call,
    the redirects it follows and the requests it sends again, is not told
    apart; neither is the file of the ledger, which [save_download_history]
    rewrites. *)
Inductive event :=
  | HEAD (url : string)
  | GET (url : string) (headers : list (string * string))
  | LISTING (url : string)
  | OPEN (path mode : string)
  | MAKEDIRS (path : string).

Record world := {
  files : gmap string string;
  directory_cache : gmap string cache_entry;
  download_history : list record;
  tree : list dir_item;
  trace : list event
}.

(** An exception, known by its [str(e)]. *)
Inductive exn := Exception (msg : string).

Definition str (e : exn) : string := let 'Exception msg := e in msg.

(** The [Content-Length] header as [int(headers.get('Content-Length', 0))]
    meets it: missing, not a number, or a number. *)
Inductive content_length :=
  | NoLength
  | BadLength
  | Length (n : Z).

Inductive head_reply :=
  | HeadError (e : exn)
  | HeadOK (cl : content_length).

(** One [response.read(1024 * 1024)]: some bytes or an error; the body ends
    where the list ends, or at the first empty chunk. *)
Inductive read :=
  | Chunk (data : string)
  | ReadError (e : exn).

Inductive get_reply :=
  | GetError (e : exn)
  | GetOK (cl : content_length) (body : list read).

(** [session.get(url)], [raise_for_status], and the links of the [<pre>]
    block of the page ([None] when the page has no such block). *)
Inductive page_reply :=
  | PageError (e : exn)
  | PageOK (pre : option (list anchor)).

Record env := {
  now : Z;
  http_head : string -> head_reply;
  http_get : string -> list (string * string) -> get_reply;
  http_page : string -> page_reply;
  open_error : string -> string -> option exn;
  makedirs_error : string -> option exn;
  (** [self.cancel_download] as the [n]-th test inside the download loop
      reads it; [None] when no batch has created the attribute yet. *)
  cancel_poll : nat -> option bool
}.

Inductive result (A : Type) :=
  | Return (a : A)
  | Raise (e : exn).
Arguments Return {A} a.
Arguments Raise {A} e.

Definition M (A : Type) : Type := world -> result A * world.

Definition ret {A} (a : A) : M A := fun w => (Return a, w).

Definition raise {A} (e : exn) : M A := fun w => (Raise e, w).

Definition bind {A B} (m : M A) (k : A -> M B) : M B :=
  fun w =>
    match m w with
    | (Return a, w') => k a w'
    | (Raise e, w') => (Raise e, w')
    end.

(** [try: m except Exception as e: h e] *)
Definition try_except {A} (m : M A) (h : exn -> M A) : M A :=
  fun w =>
    match m w with
    | (Return a, w') => (Return a, w')
    | (Raise e, w') => h e w'
    end.

Notation "x <- m ;; k" := (bind m (fun x => k))
  (at level 100, m at next level, right associativity).
Notation "m ;; k" := (bind m (fun _ => k))
  (at level 100, right associativity).

Definition log (ev : event) : M unit :=
  fun w => (Return tt,
            {| files := files w; directory_cache := directory_cache w;
               download_history := download_history w; tree := tree w;
               trace := (trace w ++ [ev])%list |}).

Definition set_files (f : gmap string string) : M unit :=
  fun w => (Return tt,
            {| files := f; directory_cache := directory_cache w;
               download_history := download_history w; tree := tree w;
               trace := trace w |}).

Definition set_directory_cache (c : gmap string cache_entry) : M unit :=
  fun w => (Return tt,
            {| files := files w; directory_cache := c;
               download_history := download_history w; tree := tree w;
               trace := trace w |}).

Definition set_download_history (h : list record) : M unit :=
  fun w => (Return tt,
            {| files := files w; directory_cache := directory_cache w;
               download_history := h; tree := tree w; trace := trace w |}).

Definition set_tree (t : list dir_item) : M unit :=
  fun w => (Return tt,
            {| files := files w; directory_cache := directory_cache w;
               download_history := download_history w; tree := t;
               trace := trace w |}).

Definition get_world : M world := fun w => (Return w, w).

(** ** The directory cache *)

Definition TTL : Z := 86400.

(** [is_cache_valid]; it raises when [strptime] does. *)
Definition is_cache_valid (E : env) (url : string) : M bool :=
  w <- get_world ;;
  match directory_cache w !! url with
  | None => ret false
  | Some entry =>
      match ce_cache_time entry with
      | None => ret false
      | Some s =>
          match strptime s with
          | None => raise (Exception "time data does not match format '%Y-%m-%d %H:%M:%S'")
          | Some cache_time =>
              (* (datetime.now() - cache_time).total_seconds() < 86400 *)
              ret (now E - cache_time <? TTL * 1000000)%Z
          end
      end
  end.

(** [_render_directory]: the rows shown are the entries handed over. *)
Definition _render_directory (dir_items : list dir_item) : M unit :=
  set_tree dir_items.

Section Fetch.
Variable urljoin : string -> string -> string.
Variable E : env.

(** [_fetch_directory_contents]; the result is [None] when a listing was
    rendered and the message shown to the user when the load failed. *)
Definition _fetch_directory_contents (current_url : string) : M (option string) :=
  try_except
    (valid <- is_cache_valid E current_url ;;
     w <- get_world ;;
     match valid, directory_cache w !! current_url with
     | true, Some entry =>
         let dir_items :=
           match ce_dir_items entry, ce_content entry with
           | Some items, _ => items
           | None, Some items => items
           | None, None => []
           end in
         _render_directory dir_items ;; ret None
     | _, _ =>
         let current_url :=
           if Py.endswith_char current_url Py.slash then current_url
           else current_url ++ "/" in
         log (LISTING current_url) ;;
         match http_page E current_url with
         | PageError e => raise e
         | PageOK None => raise (Exception "未找到目录列表")
         | PageOK (Some a_tags) =>
             match parse_error urljoin current_url a_tags with
             | Some message => raise (Exception message)
             | None =>
                 let dir_items := parse_anchors urljoin current_url a_tags in
                 w <- get_world ;;
                 set_directory_cache
                   (<[current_url :=
                        {| ce_dir_items := Some dir_items; ce_content := None;
                           ce_cache_time := Some (strftime (now E)) |}]>
                      (directory_cache w)) ;;
                 _render_directory dir_items ;; ret None
             end
         end
     end)
    (fun e => ret (Some ("无法加载目录: " ++ str e))).
End Fetch.

(** ** The history ledger *)

(** [add_download_record]; the rewriting of the ledger's file that ends it
    ([save_download_history]) is not part of the model. *)
Definition add_download_record (E : env) (url local_path status name : string) : M unit :=
  let record := {| r_url := url; r_local_path := local_path; r_name := name;
                   r_status := status; r_time := strftime (now E) |} in
  w <- get_world ;;
  let history := record :: download_history w in           (* insert(0, record) *)
  if (MAX_HISTORY <? length history)%nat
  then set_download_history (take MAX_HISTORY history)
  else set_download_history history.

(** [delete_record]: [del self.download_history[record_idx]]. *)
Definition delete_record (record_idx : nat) : M unit :=
  w <- get_world ;;
  if (record_idx <? length (download_history w))%nat
  then set_download_history (delete record_idx (download_history w))
  else raise (Exception "list assignment index out of range").

(** [clear_history] *)
Definition clear_history : M unit :=
  w <- get_world ;;
  match download_history w with
  | [] => ret tt
  | _ => set_download_history []
  end.

(** ** The resumable download engine *)

Definition CANCELLED : string := "下载已取消".
Definition INCOMPLETE : string := "文件下载不完整".
Definition NO_FLAG : string :=
  "'AstronomyDBBrowser' object has no attribute 'cancel_download'".

(** [int(response.headers.get('Content-Length', 0))] *)
Definition int_content_length (cl : content_length) : result Z :=
  match cl with
  | NoLength => Return 0%Z
  | Length n => Return n
  | BadLength => Raise (Exception "invalid literal for int() with base 10")
  end.

Definition lift {A} (r : result A) : M A := fun w => (r, w).

Definition os_path_exists (path : string) : M bool :=
  w <- get_world ;; ret (bool_decide (is_Some (files w !! path))).

Definition os_path_getsize (path : string) : M Z :=
  w <- get_world ;;
  match files w !! path with
  | Some data => ret (Z.of_nat (String.length data))
  | None => raise (Exception "[Errno 2] No such file or directory")
  end.

(** [open(path, mode)] for the modes ['ab'] and ['wb']. *)
Definition open_file (E : env) (path mode : string) : M unit :=
  log (OPEN path mode) ;;
  match open_error E path mode with
  | Some e => raise e
  | None =>
      w <- get_world ;;
      match files w !! path with
      | Some data =>
          if String.eqb mode "wb" then set_files (<[path := EmptyString]> (files w))
          else ret tt
      | None => set_files (<[path := EmptyString]> (files w))
      end
  end.

(** [f.write(chunk)] on a file opened by [open_file]. *)
Definition write_file (path chunk : string) : M unit :=
  w <- get_world ;;
  set_files (<[path := default EmptyString (files w !! path) ++ chunk]> (files w)).

Section Engine.
Variable E : env.

(** [requests.head(file_url, allow_redirects=True, timeout=10)] *)
Definition requests_head (file_url : string) : M content_length :=
  log (HEAD file_url) ;;
  match http_head E file_url with
  | HeadError e => raise e
  | HeadOK cl => ret cl
  end.

Definition _is_file_complete (file_url : string) (local_size : Z) : M bool :=
  try_except
    (response <- requests_head file_url ;;
     remote_size <- lift (int_content_length response) ;;
     ret (local_size >=? remote_size - 1024)%Z)
    (fun _ => ret false).

(** [urllib.request.urlopen(Request(file_url, headers=headers))] *)
Definition urlopen (file_url : string) (headers : list (string * string))
  : M (content_length * list read) :=
  log (GET file_url headers) ;;
  match http_get E file_url headers with
  | GetError e => raise e
  | GetOK cl body => ret (cl, body)
  end.

(** The [while True] loop; [n] counts its rounds, [body] is what is left
    of the response. *)
Fixpoint read_loop (save_path : string) (cl : content_length)
    (resume_byte_pos : Z) (n : nat) (body : list read) : M unit :=
  match cancel_poll E n with
  | None => raise (Exception NO_FLAG)
  | Some true => raise (Exception CANCELLED)
  | Some false =>
      match body with
      | [] => ret tt
      | ReadError e :: _ => raise e
      | Chunk chunk :: rest =>
          if nonempty chunk then
            write_file save_path chunk ;;
            total_size <- lift (int_content_length cl) ;;
            read_loop save_path cl resume_byte_pos (S n) rest
          else ret tt
      end
  end.

(** The second half of the [try] block of [_download_file]: the request,
    the copy loop, the check of the result and the entry in the ledger. *)
Definition transfer (file_url file_name save_path : string) (resume_byte_pos : Z) : M unit :=
  let headers :=
    if (0 <? resume_byte_pos)%Z
    then [("Range", "bytes=" ++ Py.str_of_Z resume_byte_pos ++ "-")]
    else [] in
  open_file E save_path (if (0 <? resume_byte_pos)%Z then "ab" else "wb") ;;
  response <- urlopen file_url headers ;;
  read_loop save_path response.1 resume_byte_pos 0 response.2 ;;
  final_size <- os_path_getsize save_path ;;
  complete <- _is_file_complete file_url final_size ;;
  if complete : bool then
    add_download_record E file_url save_path SUCCESS file_name
  else raise (Exception INCOMPLETE).

(** The [try] block of [_download_file]: the test for a file that is
    already complete, with its early [return], then the transfer. *)
Definition download_try (file_url file_name save_path : string) : M unit :=
  found <- os_path_exists save_path ;;
  state <-
    (if found : bool then
       resume_byte_pos <- os_path_getsize save_path ;;
       complete <- _is_file_complete file_url resume_byte_pos ;;
       if complete : bool then
         add_download_record E file_url save_path SUCCESS file_name ;;
         ret (resume_byte_pos, true)
       else ret (resume_byte_pos, false)
     else ret (0%Z, false)) ;;
  let '(resume_byte_pos, returned) := state in
  if returned : bool then ret tt
  else transfer file_url file_name save_path resume_byte_pos.

Definition file_name_of (file_url : string) : string :=
  Py.unquote (List.last (Py.split Py.slash file_url) EmptyString).

Definition _download_file (file_url save_dir : string) : M unit :=
  let file_name := file_name_of file_url in
  let save_path := Py.path_join save_dir file_name in
  try_except
    (download_try file_url file_name save_path)
    (fun e =>
       (if negb (Py.contains "已取消" (str e))
        then add_download_record E file_url EmptyString FAILURE file_name
        else ret tt) ;;
       raise e).

(** ** One task of a batch: [_download_item] *)

(** [INVALID_CHARS]: slash, backslash, colon, star, question mark, double
    quote, the angle brackets and the bar. *)
Definition INVALID_CHARS : list ascii :=
  map ascii_of_nat [47; 92; 58; 42; 63; 34; 60; 62; 124].

(** [for c in self.INVALID_CHARS: dir_name = dir_name.replace(c, '_')] *)
Definition sanitize (dir_name : string) : string :=
  fold_left (fun d c => Py.replace c "_" d) INVALID_CHARS dir_name.

Definition url_parts_of (file_url : string) : list string :=
  filter (fun p => nonempty p = true) (Py.split Py.slash (Py.rstrip Py.slash file_url)).

Definition os_makedirs (path : string) : M unit :=
  log (MAKEDIRS path) ;;
  match makedirs_error E path with
  | Some e => raise e
  | None => ret tt
  end.

(** The directory a File task downloads into. *)
Definition file_dir_of (download_dir file_url : string) : M string :=
  let url_parts := url_parts_of file_url in
  if (2 <=? length url_parts)%nat then
    match Py.item_m2 url_parts with
    | Some dir_name =>
        let dir_name := Py.unquote dir_name in
        let dir_name := sanitize dir_name in
        let file_dir := Py.path_join download_dir dir_name in
        os_makedirs file_dir ;; ret file_dir
    | None => raise (Exception "list index out of range")
    end
  else ret download_dir.

(** [_download_directory] walks a remote tree; the claims proved here do
    not look into it. *)
Variable _download_directory : string -> string -> M unit.

(** A row of the tree view: its name, type and the URL in its tag. *)
Record row := {
  row_name : string;
  row_type : string;
  row_url : string
}.

Definition _download_item (download_dir : string) (item : row)
  : M (bool * string * option string) :=
  let file_type := row_type item in
  let file_url := row_url item in
  let file_name := row_name item in
  try_except
    (if String.eqb file_type DIRECTORY then
       let dir_path := Py.path_join download_dir (Py.rstrip Py.slash file_name) in
       _download_directory file_url dir_path ;;
       ret (true, file_name, None)
     else
       file_dir <- file_dir_of download_dir file_url ;;
       _download_file file_url file_dir ;;
       ret (true, file_name, None))
    (fun e => ret (false, file_name, Some (str e))).
End Engine.

(** ** The batch orchestrator: [_batch_download]

    The orchestrator thread, the workers of the pool and the cancel button
    run side by side; the model is a transition system whose steps are the
    atomic moves of each: a test of the flag is one step and what the loop
    does after it is another.  The flag is an attribute of the application:
    a second batch, started while this one runs, clears it when it begins.
    A task is known by its index in [items]. *)

Module Batch.

(** What [future.result()] gives: the triple [_download_item] returned, or
    the exception that escaped it. *)
Inductive outcome :=
  | Returned (result : bool) (file_name : string) (error : option string)
  | Escaped (e : exn).

(** A finished task; [aborted] tells that it ended because it read
    [self.cancel_download] as set. *)
Record finished := {
  task : nat;
  out : outcome;
  aborted : bool
}.

(** Where the orchestrator stands.  The test of the flag and what follows
    it are two statements of the source, and the other threads may run
    between them. *)
Inductive phase :=
  | Submitting                (* first loop, before [if self.cancel_download] *)
  | Passed                    (* first loop, flag found clear, before [executor.submit] *)
  | Collecting                (* second loop, inside [as_completed] *)
  | Yielded (f : finished)    (* second loop, [f] handed over, before the test *)
  | Counting (f : finished)   (* second loop, flag found clear, before the counting *)
  | Finished.                 (* after both loops *)

(** [cancel_download] is the attribute of the application, shared by all its
    threads and batches; [pressed] tells that it has been set at some time
    since this batch began. *)
Record state := {
  cancel_download : bool;
  pressed : bool;
  where_ : phase;
  items_left : list row;
  submitted : nat;
  queued : list nat;
  running : list nat;
  completed : list finished;
  yielded : nat;
  success : nat;
  fail : nat;
  fail_list : list string;
  tallied : list finished
}.

(** The state in which [_batch_download items] enters its first loop, after
    [self.cancel_download = False]. *)
Definition start (items : list row) : state :=
  {| cancel_download := false; pressed := false; where_ := Submitting;
     items_left := items; submitted := 0; queued := []; running := [];
     completed := []; yielded := 0; success := 0; fail := 0; fail_list := [];
     tallied := [] |}.

(** The button: [setattr(self, 'cancel_download', True)]. *)
Definition press_cancel (s : state) : state :=
  {| cancel_download := true; pressed := true; where_ := where_ s;
     items_left := items_left s; submitted := submitted s; queued := queued s;
     running := running s; completed := completed s; yielded := yielded s;
     success := success s; fail := fail s; fail_list := fail_list s;
     tallied := tallied s |}.

(** Another [_batch_download] begins: [self.cancel_download = False]. *)
Definition clear_flag (s : state) : state :=
  {| cancel_download := false; pressed := pressed s; where_ := where_ s;
     items_left := items_left s; submitted := submitted s; queued := queued s;
     running := running s; completed := completed s; yielded := yielded s;
     success := success s; fail := fail s; fail_list := fail_list s;
     tallied := tallied s |}.

Definition goto (p : phase) (s : state) : state :=
  {| cancel_download := cancel_download s; pressed := pressed s; where_ := p;
     items_left := items_left s; submitted := submitted s; queued := queued s;
     running := running s; completed := completed s; yielded := yielded s;
     success := success s; fail := fail s; fail_list := fail_list s;
     tallied := tallied s |}.

(** [executor.submit(self._download_item, item, total, i)], and back to the
    head of the first loop. *)
Definition submit (rest : list row) (s : state) : state :=
  {| cancel_download := cancel_download s; pressed := pressed s;
     where_ := Submitting; items_left := rest;
     submitted := S (submitted s); queued := (queued s ++ [submitted s])%list;
     running := running s; completed := completed s; yielded := yielded s;
     success := success s; fail := fail s; fail_list := fail_list s;
     tallied := tallied s |}.

(** A free worker takes the oldest queued task. *)
Definition take_task (t : nat) (rest : list nat) (s : state) : state :=
  {| cancel_download := cancel_download s; pressed := pressed s; where_ := where_ s;
     items_left := items_left s; submitted := submitted s; queued := rest;
     running := (running s ++ [t])%list; completed := completed s; yielded := yielded s;
     success := success s; fail := fail s; fail_list := fail_list s;
     tallied := tallied s |}.

(** A worker finishes its task. *)
Definition finish (f : finished) (s : state) : state :=
  {| cancel_download := cancel_download s; pressed := pressed s; where_ := where_ s;
     items_left := items_left s; submitted := submitted s; queued := queued s;
     running := filter (fun t => t <> task f) (running s);
     completed := (completed s ++ [f])%list; yielded := yielded s;
     success := success s; fail := fail s; fail_list := fail_list s;
     tallied := tallied s |}.

(** [as_completed] hands over the finished future [f]. *)
Definition hand_over (f : finished) (others : list finished) (s : state) : state :=
  {| cancel_download := cancel_download s; pressed := pressed s; where_ := Yielded f;
     items_left := items_left s; submitted := submitted s; queued := queued s;
     running := running s; completed := others; yielded := yielded s;
     success := success s; fail := fail s; fail_list := fail_list s;
     tallied := tallied s |}.

(** The body of the second loop on the future [f], the [i]-th one
    [as_completed] yields, and back to the head of the loop. *)
Definition tally (f : finished) (s : state) : state :=
  let i := yielded s in
  let '(success', fail', fail_list') :=
    match out f with
    | Returned true _ _ => (S (success s), fail s, fail_list s)
    | Returned false file_name error =>
        (success s, S (fail s),
         (fail_list s ++ [(file_name ++ ": " ++ default "None" error)%string])%list)
    | Escaped e =>
        (success s, S (fail s),
         (fail_list s ++
            [("任务" ++ Py.str_of_Z (Z.of_nat (i + 1)) ++ ": " ++ str e)%string])%list)
    end in
  {| cancel_download := cancel_download s; pressed := pressed s; where_ := Collecting;
     items_left := items_left s; submitted := submitted s; queued := queued s;
     running := running s; completed := completed s; yielded := S i;
     success := success'; fail := fail'; fail_list := fail_list';
     tallied := (tallied s ++ [f])%list |}.

Section Steps.
(** [self.settings.get("max_concurrent_tasks", 3)] *)
Variable max_workers : nat.

(** The moves of one batch: its orchestrator, its pool and the button. *)
Inductive step : state -> state -> Prop :=
  (* the user *)
  | step_cancel s :
      step s (press_cancel s)
  (* first loop: [if self.cancel_download: break] *)
  | step_submit_test s item rest :
      where_ s = Submitting -> items_left s = item :: rest ->
      cancel_download s = false ->
      step s (goto Passed s)
  | step_submit_break s item rest :
      where_ s = Submitting -> items_left s = item :: rest ->
      cancel_download s = true ->
      step s (goto Collecting s)
  (* first loop: [executor.submit(...)] *)
  | step_submit s item rest :
      where_ s = Passed -> items_left s = item :: rest ->
      step s (submit rest s)
  | step_submit_end s :
      where_ s = Submitting -> items_left s = [] ->
      step s (goto Collecting s)
  (* the pool *)
  | step_take s t rest :
      queued s = t :: rest -> length (running s) < max_workers ->
      step s (take_task t rest s)
  | step_finish s f :
      task f ∈ running s ->
      (aborted f = true -> pressed s = true) ->
      step s (finish f s)
  (* second loop: [as_completed] yields a finished future, or ends *)
  | step_yield s f before after :
      where_ s = Collecting ->
      completed s = (before ++ f :: after)%list ->
      step s (hand_over f (before ++ after)%list s)
  | step_collect_end s :
      where_ s = Collecting ->
      queued s = [] -> running s = [] -> completed s = [] ->
      step s (goto Finished s)
  (* second loop: [if self.cancel_download: break] *)
  | step_collect_test s f :
      where_ s = Yielded f -> cancel_download s = false ->
      step s (goto (Counting f) s)
  | step_collect_break s f :
      where_ s = Yielded f -> cancel_download s = true ->
      step s (goto Finished s)
  (* second loop: the counting *)
  | step_tally s f :
      where_ s = Counting f ->
      step s (tally f s).

(** The one move of another batch that this batch can see: its beginning
    clears the shared flag. *)
Inductive other_batch : state -> state -> Prop :=
  | other_start s : other_batch s (clear_flag s).

Definition move (s s' : state) : Prop := step s s' \/ other_batch s s'.

(** Runs of the batch by itself. *)
Definition steps : state -> state -> Prop := rtc step.

(** The states of a batch that no other batch has disturbed. *)
Definition alone (items : list row) (s : state) : Prop :=
  steps (start items) s.

(** The states of a batch, other batches beginning at any time. *)
Definition reachable (items : list row) (s : state) : Prop :=
  rtc move (start items) s.
End Steps.

(** The futures in the hand of the second loop. *)
Definition in_hand (p : phase) : nat :=
  match p with
  | Yielded _ | Counting _ => 1
  | _ => 0
  end.

(** The submissions and the countings that the tests already passed allow. *)
Definition to_submit (p : phase) : nat :=
  match p with Passed => 1 | _ => 0 end.

Definition to_count (p : phase) : nat :=
  match p with Counting _ => 1 | _ => 0 end.

(** What holds of the tallies in every state of a batch: the two tallies
    count the tasks counted. *)
Definition counted (s : state) : Prop :=
  (success s + fail s = length (tallied s))%nat
  /\ yielded s = length (tallied s).

(** What holds besides in every state of a batch left alone: the flag is set
    exactly when it has been pressed; while it is not, no finished task has
    been aborted; the future the second loop is about to count has not been
    aborted, and no counted task has been. *)
Definition sound (s : state) : Prop :=
  cancel_download s = pressed s
  /\ (pressed s = false -> Forall (fun f => aborted f = false) (completed s))
  /\ (forall f, where_ s = Yielded f -> pressed s = false -> aborted f = false)
  /\ (forall f, where_ s = Counting f -> aborted f = false)
  /\ Forall (fun f => aborted f = false) (tallied s).

End Batch.

(** ** Vocabulary of the statements *)

(** The world after one more request, and with another ledger. *)
Definition add_event (ev : event) (w : world) : world :=
  {| files := files w; directory_cache := directory_cache w;
     download_history := download_history w; tree := tree w;
     trace := (trace w ++ [ev])%list |}.

Definition with_history (h : list record) (w : world) : world :=
  {| files := files w; directory_cache := directory_cache w;
     download_history := h; tree := tree w; trace := trace w |}.

Definition with_files (f : gmap string string) (w : world) : world :=
  {| files := f; directory_cache := directory_cache w;
     download_history := download_history w; tree := tree w; trace := trace w |}.

Definition success_record (E : env) (file_url save_dir : string) : record :=
  {| r_url := file_url;
     r_local_path := Py.path_join save_dir (file_name_of file_url);
     r_name := file_name_of file_url;
     r_status := SUCCESS;
     r_time := strftime (now E) |}.

Definition failure_record (E : env) (file_url : string) : record :=
  {| r_url := file_url;
     r_local_path := EmptyString;
     r_name := file_name_of file_url;
     r_status := FAILURE;
     r_time := strftime (now E) |}.

(** The ledger after a record went in at the front. *)
Definition pushed (r : record) (h : list record) : list record :=
  take MAX_HISTORY (r :: h).

(** The size in bytes of a local file. *)
Definition size_of (data : string) : Z := Z.of_nat (String.length data).

(** [Range: bytes=P-] *)
Definition range_from (P : Z) : list (string * string) :=
  [("Range", "bytes=" ++ Py.str_of_Z P ++ "-")].

(** What [_is_file_complete] answers to the reply its probe gets. *)
Definition verdict (reply : head_reply) (local_size : Z) : bool :=
  match reply with
  | HeadError _ => false
  | HeadOK cl =>
      match int_content_length cl with
      | Return remote_size => (local_size >=? remote_size - 1024)%Z
      | Raise _ => false
      end
  end.

(** What the copy loop writes and how it ends, from round [n] on. *)
Fixpoint stream (E : env) (cl : content_length) (n : nat) (body : list read)
  : string * result unit :=
  match cancel_poll E n with
  | None => (EmptyString, Raise (Exception NO_FLAG))
  | Some true => (EmptyString, Raise (Exception CANCELLED))
  | Some false =>
      match body with
      | [] => (EmptyString, Return tt)
      | ReadError e :: _ => (EmptyString, Raise e)
      | Chunk chunk :: rest =>
          if nonempty chunk then
            match int_content_length cl with
            | Return _ =>
                let '(data, r) := stream E cl (S n) rest in (chunk ++ data, r)
            | Raise e => (chunk, Raise e)
            end
          else (EmptyString, Return tt)
      end
  end.

(** Newest first: every record bears a readable time, and no record is
    newer than one before it. *)
Definition not_older (a b : record) : Prop :=
  match r_time a, r_time b with
  | TimeString x, TimeString y => (y <= x)%Z
  | _, _ => False
  end.

Definition newest_first (h : list record) : Prop := StronglySorted not_older h.

(** No error of the environment is worded like a cancellation. *)
Definition is_cancel (e : exn) : bool := Py.contains "已取消" (str e).

Definition read_error_free (r : read) : Prop :=
  match r with
  | Chunk _ => True
  | ReadError e => is_cancel e = false
  end.

Record plain_errors (E : env) : Prop := {
  plain_open : forall path mode e, open_error E path mode = Some e -> is_cancel e = false;
  plain_get : forall url headers e, http_get E url headers = GetError e -> is_cancel e = false;
  plain_read : forall url headers cl body,
      http_get E url headers = GetOK cl body -> Forall read_error_free body
}.

(** ** A server and a download directory to run the engine on *)

(** [n] bytes. *)
Fixpoint zeros (n : nat) : string :=
  match n with
  | O => EmptyString
  | S k => String "0" (zeros k)
  end.

Definition demo_url : string := "http://psp.china-vo.org/pspdata/2024/a.fits".
Definition demo_dir : string := "/data/2024".
Definition demo_path : string := "/data/2024/a.fits".

(** A server that reports [reported] to a probe; to a request it promises
    [promised] bytes and sends [sent] bytes, in one chunk; nobody cancels. *)
Definition demo_server (reported : content_length) (promised sent : nat) : env :=
  {| now := 1700000000000000;
     http_head := fun _ => HeadOK reported;
     http_get := fun _ _ => GetOK (Length (Z.of_nat promised)) [Chunk (zeros sent)];
     http_page := fun _ => PageOK None;
     open_error := fun _ _ => None;
     makedirs_error := fun _ => None;
     cancel_poll := fun _ => Some false |}.

(** A server that sends two chunks of [sent] bytes while the user presses
    the cancel button during the second round of the copy loop. *)
Definition demo_cancelled (reported : content_length) (sent : nat) : env :=
  {| now := 1700000000000000;
     http_head := fun _ => HeadOK reported;
     http_get := fun _ _ =>
       GetOK (Length (Z.of_nat (2 * sent))) [Chunk (zeros sent); Chunk (zeros sent)];
     http_page := fun _ => PageOK None;
     open_error := fun _ _ => None;
     makedirs_error := fun _ => None;
     cancel_poll := fun n => Some (1 <=? n)%nat |}.

(** A download directory that holds the first [have] bytes of the file, or
    nothing. *)
Definition demo_world (have : option nat) : world :=
  {| files := match have with
              | Some n => {[ demo_path := zeros n ]}
              | None => ∅
              end;
     directory_cache := ∅;
     download_history := [];
     tree := [];
     trace := [] |}.

(** A cache that holds one listing, stored at second [sec], and a ledger
    that holds [n] records of one earlier download. *)
Definition demo_listing : string := "http://psp.china-vo.org/pspdata/".

Definition demo_record : record :=
  {| r_url := demo_url; r_local_path := demo_path; r_name := "a.fits";
     r_status := SUCCESS; r_time := TimeString 1600000000 |}.

Definition demo_state (sec : Z) (n : nat) : world :=
  {| files := ∅;
     directory_cache :=
       {[ demo_listing := {| ce_dir_items := Some []; ce_content := None;
                             ce_cache_time := Some (TimeString sec) |} ]};
     download_history := repeat demo_record n;
     tree := [];
     trace := [] |}.

(** ** The sweep of the cache: [cleanup_expired_cache] *)

(** The loop over the keys of the copy; [expired_count] is carried along.
    [del] of a key that is gone is a [KeyError]. *)
Fixpoint cleanup_loop (E : env) (urls : list string) (expired_count : nat) : M nat :=
  match urls with
  | [] => ret expired_count
  | url :: rest =>
      valid <- is_cache_valid E url ;;
      if valid : bool then cleanup_loop E rest expired_count
      else
        w <- get_world ;;
        match directory_cache w !! url with
        | None => raise (Exception url)
        | Some _ =>
            set_directory_cache (delete url (directory_cache w)) ;;
            cleanup_loop E rest (S expired_count)
        end
  end.

(** [cleanup_expired_cache]; [current_cache] lists the keys of the copy in
    the order the dictionary holds them.  The answer tells whether the cache
    file was written. *)
Definition cleanup_expired_cache (E : env) (current_cache : list string) : M bool :=
  try_except
    (expired_count <- cleanup_loop E current_cache 0 ;;
     ret (0 <? expired_count)%nat)
    (fun _ => ret false).

(** An entry [is_cache_valid] accepts. *)
Definition fresh (E : env) (entry : cache_entry) : bool :=
  match ce_cache_time entry with
  | Some (TimeString sec) => (now E - sec * 1000000 <? 86400 * 1000000)%Z
  | _ => false
  end.

(** An entry whose time stamp [strptime] can read, or that has none. *)
Definition readable (entry : cache_entry) : Prop :=
  ce_cache_time entry <> Some BadTimeString.

(** ** Navigation: [on_double_click], [go_back], [refresh_current_directory] *)

(** Each handler gives the new [path_stack] and the URL it loads, if any
    ([load_current_directory] loads [path_stack[-1]]). *)
Definition on_double_click (file_type file_url : string) (path_stack : list string)
  : list string * option string :=
  if String.eqb file_type DIRECTORY then
    if in_tuple file_url path_stack then (path_stack, None)
    else
      let path_stack := (path_stack ++ [file_url])%list in
      (path_stack, last path_stack)
  else (path_stack, None).

Definition go_back (path_stack : list string) : list string * option string :=
  if (1 <? length path_stack)%nat then
    let path_stack := removelast path_stack in      (* pop() *)
    (path_stack, last path_stack)
  else (path_stack, None).

Definition refresh_current_directory (path_stack : list string)
  : list string * option string :=
  match path_stack with
  | [] => (path_stack, None)
  | _ => (path_stack, last path_stack)
  end.

(** What the user does in the browser window. *)
Inductive click :=
  | DoubleClick (file_type file_url : string)
  | Back
  | Refresh.

Definition handle (c : click) (path_stack : list string) : list string * option string :=
  match c with
  | DoubleClick file_type file_url => on_double_click file_type file_url path_stack
  | Back => go_back path_stack
  | Refresh => refresh_current_directory path_stack
  end.

(** The stack after a series of clicks, from [self.path_stack = [base_url]]. *)
Definition browse (base_url : string) (clicks : list click) : list string :=
  fold_left (fun path_stack c => (handle c path_stack).1) clicks [base_url].

(** ** The recursive directory downloader: [_download_directory] *)

(** [s.replace("//", "/")]: from the left, pairs that do not overlap. *)
Fixpoint replace_double_slash (s : string) : string :=
  match s with
  | EmptyString => EmptyString
  | String c s' =>
      if Ascii.eqb c Py.slash then
        match s' with
        | String c' rest =>
            if Ascii.eqb c' Py.slash then String Py.slash (replace_double_slash rest)
            else String c (replace_double_slash s')
        | EmptyString => String c EmptyString
        end
      else String c (replace_double_slash s')
  end.

(** [s.split('://', 1)] when ['://' in s]: what stands before the first
    [://] and what stands after it; [None] when there is no [://]. *)
Fixpoint split_scheme (s : string) : option (string * string) :=
  match s with
  | EmptyString => None
  | String c s' =>
      if Py.startswith s "://" then
        match s' with
        | String _ (String _ rest) => Some (EmptyString, rest)
        | _ => None
        end
      else
        match split_scheme s' with
        | Some (protocol, rest) => Some (String c protocol, rest)
        | None => None
        end
  end.

(** Step 1 of [_download_directory]. *)
Definition normalize_dir_url (dir_url : string) : string :=
  let dir_url :=
    if Py.endswith_char dir_url Py.slash then dir_url
    else Py.rstrip Py.slash dir_url ++ "/" in
  match split_scheme dir_url with
  | Some (protocol, rest) => protocol ++ "://" ++ replace_double_slash rest
  | None => replace_double_slash dir_url
  end.

Definition RECURSION : string := "maximum recursion depth exceeded".
Definition NO_DIR_NAME : string := "无法解析目录URL".
Definition NO_LISTING : string := "未找到目录列表".

Section Walker.
Variable urljoin : string -> string -> string.
Variable E : env.
(** [self.cancel_download] as the walker reads it the [n]-th time. *)
Variable walker_poll : nat -> option bool.

(** [if self.cancel_download: raise Exception("下载已取消")] *)
Definition check_cancel (n : nat) : M unit :=
  match walker_poll n with
  | None => raise (Exception NO_FLAG)
  | Some true => raise (Exception CANCELLED)
  | Some false => ret tt
  end.

(** [_download_directory]; [depth] is the depth of recursion the
    interpreter still allows, [n] counts the reads of the cancel flag, and
    the result is the count after the walk. *)
Fixpoint _download_directory (depth : nat) (dir_url save_root : string) (n : nat)
  : M nat :=
  match depth with
  | O => raise (Exception RECURSION)
  | S depth' =>
      let dir_url := normalize_dir_url dir_url in
      match url_parts_of dir_url with
      | [] => raise (Exception NO_DIR_NAME)
      | _ =>
          let save_dir := save_root in
          os_makedirs E save_dir ;;
          check_cancel n ;;
          log (LISTING dir_url) ;;
          match http_page E dir_url with
          | PageError e => raise e
          | PageOK None => raise (Exception NO_LISTING)
          | PageOK (Some a_tags) =>
              match parse_error urljoin dir_url a_tags with
              | Some message => raise (Exception message)
              | None =>
                  let dir_items := parse_anchors urljoin dir_url a_tags in
                  (fix walk (items : list dir_item) (n : nat) : M nat :=
                     match items with
                     | [] => ret n
                     | item :: rest =>
                         check_cancel n ;;
                         n' <- (if String.eqb (file_type item) DIRECTORY
                                then _download_directory depth' (full_url item) save_dir
                                       (S n)
                                else _download_file E (full_url item) save_dir ;;
                                     ret (S n)) ;;
                         walk rest n'
                     end) dir_items (S n)
              end
          end
      end
  end.

(** A Directory task of a batch runs the walker from its first read. *)
Definition download_directory_task (depth : nat) (dir_url dir_path : string) : M unit :=
  _download_directory depth dir_url dir_path 0 ;; ret tt.
End Walker.

(** ** What a run may do to the world *)

(** [m] takes every world [w] to a world that [R] relates to [w]. *)
Definition keeps {A} (R : world -> world -> Prop) (m : M A) : Prop :=
  forall w, R w (m w).2.

(** The events a run has added to the trace all satisfy [P], and the cache
    and the rows shown are as before. *)
Definition only_events (P : event -> Prop) (w w' : world) : Prop :=
  directory_cache w' = directory_cache w
  /\ tree w' = tree w
  /\ exists evs, trace w' = (trace w ++ evs)%list /\ Forall P evs.

(** No file but those under [P] has changed. *)
Definition only_files (P : string -> Prop) (w w' : world) : Prop :=
  forall path, ~ P path -> files w' !! path = files w !! path.

(** An event of a walk that saves into [save_root]: no directory but
    [save_root] is made, and a listing is asked for under a URL that ends
    with a slash. *)
Definition walk_event (save_root : string) (ev : event) : Prop :=
  match ev with
  | MAKEDIRS path => path = save_root
  | LISTING url => Py.endswith_char url Py.slash = true
  | HEAD _ | GET _ _ | OPEN _ _ => True
  end.

(** What a walk that saves into [save_root] does, one move after the other. *)
Inductive walk_move :=
  | Makedirs                       (* [os.makedirs(save_root, exist_ok=True)] *)
  | Listing (dir_url : string)     (* [session.get(dir_url, timeout=30)] *)
  | Download (file_url : string).  (* [self._download_file(file_url, save_root)] *)

Definition do_move (E : env) (save_root : string) (mv : walk_move) (w : world) : world :=
  match mv with
  | Makedirs => add_event (MAKEDIRS save_root) w
  | Listing dir_url => add_event (LISTING dir_url) w
  | Download file_url => (_download_file E file_url save_root w).2
  end.

Definition do_moves (E : env) (save_root : string) (moves : list walk_move) (w : world)
  : world :=
  fold_left (fun w mv => do_move E save_root mv w) moves w.

Definition listing_with_slash (mv : walk_move) : Prop :=
  match mv with
  | Listing dir_url => Py.endswith_char dir_url Py.slash = true
  | Makedirs | Download _ => True
  end.

(** [w'] comes from [w] by moves of a walk that saves into [save_root]. *)
Definition walked (E : env) (save_root : string) (w w' : world) : Prop :=
  exists moves, Forall listing_with_slash moves /\ w' = do_moves E save_root moves w.

(** An event of one download of [file_url] into [save_dir]. *)
Definition engine_event (file_url save_dir : string) (ev : event) : Prop :=
  match ev with
  | HEAD url => url = file_url
  | GET url _ => url = file_url
  | OPEN path _ => path = Py.path_join save_dir (file_name_of file_url)
  | LISTING _ | MAKEDIRS _ => False
  end.

(** Both: the events added satisfy [P], the files changed satisfy [Q]. *)
Definition bounded (P : event -> Prop) (Q : string -> Prop) (w w' : world) : Prop :=
  only_events P w w' /\ only_files Q w w'.

(** ** The accounts of a batch *)

(** What the orchestrator's books show in every state of a batch over
    [items]: every item is submitted or still to be submitted; the tasks in
    the pool are distinct and were submitted; the queued, the running and
    the finished tasks, the future in the hand of the second loop and the
    counted tasks are no more than the submitted ones, and all of them while
    the flag has not been set; [fail] is the length of [fail_list]; the
    first loop is left only at the end of [items] or after the flag was
    set, and the second only after the flag was set or when no future is
    left. *)
Definition accounted (items : list row) (s : Batch.state) : Prop :=
  (Batch.submitted s + length (Batch.items_left s) = length items)%nat
  /\ NoDup (Batch.queued s ++ Batch.running s)
  /\ Forall (fun t => (t < Batch.submitted s)%nat) (Batch.queued s ++ Batch.running s)
  /\ (length (Batch.queued s) + length (Batch.running s)
      + length (Batch.completed s) + Batch.in_hand (Batch.where_ s)
      + length (Batch.tallied s) <= Batch.submitted s)%nat
  /\ (Batch.pressed s = false ->
      (length (Batch.queued s) + length (Batch.running s)
       + length (Batch.completed s) + Batch.in_hand (Batch.where_ s)
       + length (Batch.tallied s) = Batch.submitted s)%nat)
  /\ Batch.fail s = length (Batch.fail_list s)
  /\ (Batch.cancel_download s = true -> Batch.pressed s = true)
  /\ (Batch.where_ s = Batch.Submitting \/ Batch.where_ s = Batch.Passed
      \/ Batch.items_left s = [] \/ Batch.pressed s = true)
  /\ (Batch.where_ s = Batch.Finished ->
      Batch.pressed s = true
      \/ (Batch.queued s = [] /\ Batch.running s = [] /\ Batch.completed s = [])).

(** ** More servers to run the program on *)

(** A server that is down: every request fails with [e]. *)
Definition demo_down (e : exn) : env :=
  {| now := 1700000000000000;
     http_head := fun _ => HeadError e;
     http_get := fun _ _ => GetError e;
     http_page := fun _ => PageError e;
     open_error := fun _ _ => None;
     makedirs_error := fun _ => None;
     cancel_poll := fun _ => Some false |}.

(** A server every page of which lists [a_tags]. *)
Definition demo_index (a_tags : list anchor) : env :=
  {| now := 1700000000000000;
     http_head := fun _ => HeadOK NoLength;
     http_get := fun _ _ => GetOK NoLength [];
     http_page := fun _ => PageOK (Some a_tags);
     open_error := fun _ _ => None;
     makedirs_error := fun _ => None;
     cancel_poll := fun _ => Some false |}.

(** A line of a listing. *)
Definition demo_anchor : anchor :=
  {| a_text := "a.fits"; a_href := "a.fits";
     a_next_sibling := Some "  2024-01-01 10:00  2880"; a_sibling_error := None |}.

(** The server of [demo_index] seen [seconds] later. *)
Definition demo_later (seconds : Z) : env :=
  {| now := 1700000000000000 + seconds * 1000000;
     http_head := fun _ => HeadOK NoLength;
     http_get := fun _ _ => GetOK NoLength [];
     http_page := fun _ => PageOK (Some [demo_anchor]);
     open_error := fun _ _ => None;
     makedirs_error := fun _ => None;
     cancel_poll := fun _ => Some false |}.

(** The row of a directory in the tree view. *)
Definition demo_row : row :=
  {| row_name := "2024/"; row_type := DIRECTORY; row_url := demo_listing |}.

(** A batch of one file that runs to its end. *)
Definition demo_batch_item : row :=
  {| row_name := "a.fits"; row_type := FILE; row_url := demo_url |}.

Definition demo_done : Batch.finished :=
  {| Batch.task := 0; Batch.out := Batch.Returned true "a.fits" None;
     Batch.aborted := false |}.

Definition demo_batch_running : Batch.state :=
  Batch.take_task 0 []
    (Batch.goto Batch.Collecting
       (Batch.submit [] (Batch.goto Batch.Passed (Batch.start [demo_batch_item])))).

Definition demo_batch_end : Batch.state :=
  Batch.goto Batch.Finished
    (Batch.tally demo_done
       (Batch.goto (Batch.Counting demo_done)
          (Batch.hand_over demo_done []
             (Batch.finish demo_done demo_batch_running)))).

(** A batch of two files in which the button is pressed after the first
    loop has tested the flag for the first file. *)
Definition demo_batch_pressed : Batch.state :=
  Batch.press_cancel
    (Batch.goto Batch.Passed (Batch.start [demo_batch_item; demo_batch_item])).

(** A download directory whose name holds the word the code knows a
    cancellation by, and a file system that refuses to open files in [dir]:
    [str] of the [PermissionError] names the path. *)
Definition demo_cancel_dir : string := "/data/已取消".

Definition demo_denied (dir : string) : env :=
  {| now := 1700000000000000;
     http_head := fun _ => HeadOK (Length 3000);
     http_get := fun _ _ => GetOK (Length 3000) [Chunk (zeros 3000)];
     http_page := fun _ => PageOK None;
     open_error := fun _ _ =>
       Some (Exception ("[Errno 13] Permission denied: '" ++ dir ++ "/a.fits'"));
     makedirs_error := fun _ => None;
     cancel_poll := fun _ => Some false |}.

(** * Properties *)

(** ** Strings *)

Lemma append_cons (c : ascii) (a b : string) : String c a ++ b = String c (a ++ b).
Proof. reflexivity. Qed.

Lemma append_empty_r (s : string) : s ++ "" = s.
Proof. induction s as [|c s IH]; [reflexivity|]. rewrite append_cons. congruence. Qed.

Lemma append_assoc (a b c : string) : (a ++ b) ++ c = a ++ (b ++ c).
Proof. induction a as [|x a IH]; [reflexivity|]. rewrite !append_cons. congruence. Qed.

Lemma length_append (a b : string) :
  String.length (a ++ b) = (String.length a + String.length b)%nat.
Proof.
  induction a as [|x a IH]; [reflexivity|]. rewrite append_cons. simpl. congruence.
Qed.

Lemma startswith_spec (s p : string) :
  Py.startswith s p = true <-> exists rest, s = p ++ rest.
Proof.
  revert s; induction p as [|a p IH]; intros s; simpl.
  - split; [intros _; exists s; reflexivity | reflexivity].
  - destruct s as [|b s].
    + split; [discriminate | intros [rest H]; discriminate].
    + rewrite andb_true_iff, Ascii.eqb_eq, IH. split.
      * intros [-> [rest ->]]. exists rest; reflexivity.
      * intros [rest H]. rewrite append_cons in H. injection H as -> ->. eauto.
Qed.

Lemma contains_spec (p s : string) :
  Py.contains p s = true <-> exists a b, s = a ++ p ++ b.
Proof.
  induction s as [|c s IH]; simpl.
  - rewrite orb_false_r, startswith_spec. split.
    + intros [rest H]. exists "", rest. exact H.
    + intros [a [b H]]. destruct a; [eauto | discriminate].
  - rewrite orb_true_iff, IH, startswith_spec. split.
    + intros [[rest H] | [a [b H]]].
      * exists "", rest. exact H.
      * exists (String c a), b. rewrite append_cons. congruence.
    + intros [[|x a] [b H]].
      * left. exists b. exact H.
      * right. rewrite append_cons in H. injection H as -> ->. eauto.
Qed.

Lemma in_tuple_spec (x : string) (t : list string) :
  in_tuple x t = true <-> In x t.
Proof.
  unfold in_tuple. rewrite existsb_exists. split.
  - intros [y [Hy Heq]]. apply String.eqb_eq in Heq. congruence.
  - intros H. exists x. split; [exact H | apply String.eqb_refl].
Qed.

(** ** The listing filter *)

(** C5, as the code has it: an entry is skipped exactly when its name is
    [.] or [..], or its link is [../], [..], [./] or [.], or its link goes on
    after a leading [../], or its name holds "parent directory" in any
    letter case, or its name holds the Chinese for "parent directory". *)
Theorem should_skip_item_iff (name href : string) :
  _should_skip_item name href = true <->
    (name = "." \/ name = "..")
    \/ (href = "../" \/ href = ".." \/ href = "./" \/ href = ".")
    \/ (exists rest, href = "../" ++ rest /\ rest <> "")
    \/ (exists a b, Py.lower name = a ++ "parent directory" ++ b)
    \/ (exists a b, name = a ++ "上级目录" ++ b).
Proof.
  unfold _should_skip_item, any.
  cbn [existsb]. rewrite orb_false_r.
  rewrite !orb_true_iff, andb_true_iff, !in_tuple_spec, !contains_spec,
    startswith_spec, Nat.ltb_lt.
  cbn [In].
  assert (Hlen : (exists rest, href = "../" ++ rest) /\ (3 < String.length href)%nat
                 <-> exists rest, href = "../" ++ rest /\ rest <> "").
  { split.
    - intros [[rest ->] Hl]. exists rest. split; [reflexivity|].
      intros ->. simpl in Hl. lia.
    - intros [rest [-> Hne]]. split; [eauto|].
      rewrite length_append. destruct rest; [congruence | simpl; lia]. }
  rewrite Hlen. intuition (try congruence; eauto).
Qed.

(** C5, the counterexample: a link named [../] that leads elsewhere is kept,
    though the claim has it skipped for its name. *)
Lemma should_skip_item_keeps_dotted_name :
  spec_should_skip "../" "up/" = true /\ _should_skip_item "../" "up/" = false.
Proof. split; reflexivity. Qed.

(** An entry reaches [dir_items] exactly when the filter lets it through and
    its link is not empty. *)
Lemma parse_anchor_kept (urljoin : string -> string -> string)
    (current_url : string) (a : anchor) :
  let name := if nonempty (a_text a) then Py.strip (a_text a) else "" in
  is_Some (parse_anchor urljoin current_url a) <->
    _should_skip_item name (a_href a) = false /\ a_href a <> "".
Proof.
  simpl. unfold parse_anchor.
  destruct (_should_skip_item _ _).
  - split; [intros [x H]; discriminate | intros [H _]; discriminate].
  - assert (Hne : nonempty (a_href a) = true <-> a_href a <> "").
    { unfold nonempty. destruct (String.eqb_spec (a_href a) ""); simpl; split; congruence. }
    destruct (nonempty (a_href a)); simpl.
    + destruct (_parse_file_info a). split; [intros _; split; [reflexivity|tauto] | eauto].
    + split; [intros [x H]; discriminate | intros [_ H]; apply Hne in H; discriminate].
Qed.

(** ** Sizes *)

Lemma parse_file_info_dash (a : anchor) (s p0 p1 : string) (rest : list string) :
  a_next_sibling a = Some s ->
  Py.words (Py.strip s) = p0 :: p1 :: "-" :: rest ->
  _parse_file_info a = (Py.join " " [p0; p1], UNKNOWN).
Proof.
  intros Hs Hw. unfold _parse_file_info. rewrite Hs.
  destruct s as [|c s]; [discriminate Hw|].
  change (nonempty (String c s)) with true. cbv iota.
  destruct (Py.strip (String c s)) as [|c' s'] eqn:Hst; [discriminate Hw|].
  change (nonempty (String c' s')) with true. cbv iota.
  rewrite Hw. reflexivity.
Qed.

Lemma parse_size_try_none (py_float : string -> option float) (s : string) :
  py_float s = None -> py_float (Py.drop_last s) = None ->
  s <> UNKNOWN -> parse_size_try py_float s = None.
Proof.
  intros H1 H2 Hne. unfold parse_size_try.
  destruct (String.eqb_spec s UNKNOWN); [contradiction|].
  rewrite H1, H2. repeat (destruct (Py.endswith_char s _)); reflexivity.
Qed.

(** C8: a size shown as [-] becomes "unknown"; [2K] sorts as 2048, [1.5M] as
    1572864.0 and [1G] as 1073741824.0, given that [float] reads [2], [1.5]
    and [1] as Python does; text in which [float] finds no number sorts as
    [0]; and whatever the body of the [try] raises, the answer is [0]. *)
Theorem parse_size_values (py_float : string -> option float) :
  py_float "2" = Some 2%float ->
  py_float "1.5" = Some 1.5%float ->
  py_float "1" = Some 1%float ->
  (forall a s p0 p1 rest,
      a_next_sibling a = Some s ->
      Py.words (Py.strip s) = p0 :: p1 :: "-" :: rest ->
      (_parse_file_info a).2 = UNKNOWN)
  /\ parse_size py_float UNKNOWN = PyInt 0
  /\ parse_size py_float "2K" = PyFloat 2048
  /\ parse_size py_float "1.5M" = PyFloat 1572864
  /\ parse_size py_float "1G" = PyFloat 1073741824
  /\ (forall s, py_float s = None -> py_float (Py.drop_last s) = None ->
               parse_size py_float s = PyInt 0)
  /\ (forall s, parse_size_try py_float s = None -> parse_size py_float s = PyInt 0).
Proof.
  intros H2 H15 H1. split_and!.
  - intros a s p0 p1 rest Hs Hw.
    rewrite (parse_file_info_dash a s p0 p1 rest Hs Hw). reflexivity.
  - reflexivity.
  - unfold parse_size, parse_size_try. cbn. rewrite H2. reflexivity.
  - unfold parse_size, parse_size_try. cbn. rewrite H15. reflexivity.
  - unfold parse_size, parse_size_try. cbn. rewrite H1. reflexivity.
  - intros s Hs Hd. unfold parse_size.
    destruct (String.eqb_spec s UNKNOWN) as [->|Hne]; [reflexivity|].
    rewrite parse_size_try_none by assumption. reflexivity.
  - intros s Hs. unfold parse_size. rewrite Hs. reflexivity.
Qed.

Lemma parse_size_values_witness :
  decimal_float "2" = Some 2%float
  /\ parse_size decimal_float "2K" = PyFloat 2048
  /\ parse_size decimal_float "1.5M" = PyFloat 1572864
  /\ parse_size decimal_float "1G" = PyFloat 1073741824
  /\ parse_size decimal_float "n/a" = PyInt 0.
Proof.
  destruct (parse_size_values decimal_float eq_refl eq_refl eq_refl)
    as (_ & _ & HK & HM & HG & Hbad & _).
  split_and!; try assumption; [reflexivity|].
  apply Hbad; reflexivity.
Defined.

(** ** The history ledger *)

Lemma add_download_record_run (E : env) (url local_path status name : string) (w : world) :
  add_download_record E url local_path status name w =
    (Return tt,
     with_history
       (pushed {| r_url := url; r_local_path := local_path; r_name := name;
                  r_status := status; r_time := strftime (now E) |}
               (download_history w)) w).
Proof.
  unfold add_download_record, bind, get_world, pushed. cbv zeta.
  match goal with
  | |- context [Nat.ltb ?a ?b] => destruct (Nat.ltb_spec a b) as [Hlt|Hge]
  end.
  - reflexivity.
  - unfold set_download_history, with_history. rewrite take_ge by exact Hge. reflexivity.
Qed.

Lemma pushed_length (r : record) (h : list record) :
  length (pushed r h) = Nat.min MAX_HISTORY (S (length h)).
Proof. unfold pushed. rewrite length_take. reflexivity. Qed.

Lemma pushed_full (r : record) (h : list record) :
  length h = MAX_HISTORY -> pushed r h = r :: removelast h.
Proof.
  intros Hlen. unfold pushed, MAX_HISTORY in *.
  rewrite removelast_firstn_len, Hlen. reflexivity.
Qed.

Lemma StronglySorted_sublist {A} (R : A -> A -> Prop) (k l : list A) :
  k `sublist_of` l -> StronglySorted R l -> StronglySorted R k.
Proof.
  induction 1 as [|x k l Hsub IH|x k l Hsub IH]; intros Hs.
  - constructor.
  - apply StronglySorted_inv in Hs as [Hs Hall]. constructor; [auto|].
    rewrite Forall_forall in *. intros y Hy. apply Hall.
    eapply elem_of_sublist; [exact Hy | exact Hsub].
  - apply StronglySorted_inv in Hs as [Hs _]. auto.
Qed.

Lemma pushed_newest_first (r : record) (h : list record) :
  newest_first h -> Forall (not_older r) h -> newest_first (pushed r h).
Proof.
  intros Hs Hall. unfold newest_first, pushed.
  apply StronglySorted_sublist with (l := r :: h); [apply sublist_take|].
  constructor; assumption.
Qed.

Lemma clear_history_run (w : world) : download_history (clear_history w).2 = [].
Proof.
  unfold clear_history, bind, get_world.
  destruct (download_history w) eqn:Hh; cbn; [exact Hh | reflexivity].
Qed.

(** C7: a new record goes to the front of the ledger and the ledger is cut
    to its first 1000 records; on a full ledger that drops the oldest record
    and leaves 1000; inserting, deleting and clearing keep the bound of 1000
    and the order newest first (for inserting: when the clock has not run
    backwards). *)
Theorem history_capped_newest_first (E : env) (url local_path status name : string)
    (w : world) :
  let r := {| r_url := url; r_local_path := local_path; r_name := name;
              r_status := status; r_time := strftime (now E) |} in
  let h := download_history w in
  let h' := download_history (add_download_record E url local_path status name w).2 in
  h' = take MAX_HISTORY (r :: h)
  /\ head h' = Some r
  /\ length h' <= MAX_HISTORY
  /\ (length h = MAX_HISTORY -> h' = r :: removelast h /\ length h' = MAX_HISTORY)
  /\ (newest_first h -> Forall (not_older r) h -> newest_first h')
  /\ (forall i,
        let h'' := download_history (delete_record i w).2 in
        (length h <= MAX_HISTORY -> length h'' <= MAX_HISTORY)
        /\ (newest_first h -> newest_first h''))
  /\ (let h'' := download_history (clear_history w).2 in
      length h'' <= MAX_HISTORY /\ newest_first h'').
Proof.
  intros r h h'. subst h'. rewrite add_download_record_run. cbn [snd with_history download_history].
  fold r. fold h. split_and!.
  - reflexivity.
  - reflexivity.
  - rewrite pushed_length. unfold MAX_HISTORY. lia.
  - intros Hlen. rewrite pushed_full by exact Hlen. split; [reflexivity|].
    cbn [length]. rewrite removelast_firstn_len, length_take, Hlen. reflexivity.
  - apply pushed_newest_first.
  - intros i. unfold delete_record, bind, get_world. fold h.
    destruct (Nat.ltb_spec i (length h)) as [Hi|Hi]; cbn; fold h; cbv zeta.
    + split.
      * intros Hb. pose proof (sublist_length _ _ (sublist_delete h i)). lia.
      * intros Hs. eapply StronglySorted_sublist; [apply sublist_delete | exact Hs].
    + split; auto.
  - rewrite clear_history_run. cbn. unfold MAX_HISTORY. lia.
  - rewrite clear_history_run. constructor.
Qed.

Lemma history_capped_newest_first_witness :
  let E := demo_server NoLength 0 0 in
  let w := demo_state 0 1000 in
  let w' := (add_download_record E demo_url "" FAILURE "a.fits" w).2 in
  length (download_history w) = 1000%nat
  /\ length (download_history w') = 1000%nat
  /\ head (download_history w') = Some (failure_record E demo_url)
  /\ download_history w' = failure_record E demo_url :: repeat demo_record 999.
Proof.
  intros E w w'.
  destruct (history_capped_newest_first E demo_url "" FAILURE "a.fits" w)
    as (_ & Hhead & _ & Hfull & _).
  destruct (Hfull eq_refl) as [Hdrop Hlen].
  split_and!; [reflexivity | exact Hlen | exact Hhead | exact Hdrop].
Defined.

(** ** The directory cache *)

Lemma is_cache_valid_run (E : env) (url : string) (w : world) :
  is_cache_valid E url w = ((is_cache_valid E url w).1, w).
Proof.
  unfold is_cache_valid, bind, get_world.
  destruct (directory_cache w !! url) as [entry|]; [|reflexivity].
  destruct (ce_cache_time entry) as [[sec|]|]; reflexivity.
Qed.

Lemma is_cache_valid_true_iff (E : env) (url : string) (w : world) :
  (is_cache_valid E url w).1 = Return true <->
    exists entry sec,
      directory_cache w !! url = Some entry
      /\ ce_cache_time entry = Some (TimeString sec)
      /\ (now E - sec * 1000000 < 86400 * 1000000)%Z.
Proof.
  unfold is_cache_valid, bind, get_world.
  destruct (directory_cache w !! url) as [entry|]; cbn.
  - destruct (ce_cache_time entry) as [[sec|]|] eqn:Hct; cbn.
    + unfold TTL. destruct (Z.ltb_spec (now E - sec * 1000000) (86400 * 1000000)) as [Hlt|Hge].
      * split; [intros _; exists entry, sec; auto | reflexivity].
      * split; [discriminate|]. intros (e & s & He & Hs & Hlt).
        injection He as <-. rewrite Hct in Hs. injection Hs as <-. lia.
    + split; [discriminate|]. intros (e & s & He & Hs & _).
      injection He as <-. rewrite Hct in Hs. discriminate Hs.
    + split; [discriminate|]. intros (e & s & He & Hs & _).
      injection He as <-. rewrite Hct in Hs. discriminate Hs.
  - split; [discriminate|]. intros (e & s & He & _). discriminate He.
Qed.

Lemma fetch_keeps_entries (urljoin : string -> string -> string) (E : env)
    (url : string) (w : world) (u : string) :
  is_Some (directory_cache w !! u) ->
  is_Some (directory_cache (_fetch_directory_contents urljoin E url w).2 !! u).
Proof.
  intros Hu. unfold _fetch_directory_contents, try_except, bind.
  rewrite is_cache_valid_run.
  destruct (is_cache_valid E url w).1 as [[|]|e]; cbn; try exact Hu.
  - destruct (directory_cache w !! url); cbn; [exact Hu|].
    destruct (http_page E _) as [e|[a_tags|]]; cbn; try exact Hu.
    destruct (parse_error _ _ _); cbn; try exact Hu.
    destruct (decide (u = if Py.endswith_char url Py.slash then url else url ++ "/")) as [->|Hne].
    + rewrite lookup_insert_eq. eauto.
    + rewrite lookup_insert_ne by congruence. exact Hu.
  - destruct (http_page E _) as [e|[a_tags|]]; cbn; try exact Hu.
    destruct (parse_error _ _ _); cbn; try exact Hu.
    destruct (decide (u = if Py.endswith_char url Py.slash then url else url ++ "/")) as [->|Hne].
    + rewrite lookup_insert_eq. eauto.
    + rewrite lookup_insert_ne by congruence. exact Hu.
Qed.

(** C6: the cache answers for a URL exactly when it holds an entry for it
    whose time stamp is less than 86400 seconds old; at 86400 seconds sharp it
    does not; asking never changes the cache; a hit renders the stored
    entries without a request, a miss sends one, and neither removes any
    entry, expired or not. *)
Theorem cache_hit_iff_fresh (urljoin : string -> string -> string) (E : env)
    (url : string) (w : world) :
  ((is_cache_valid E url w).1 = Return true <->
     exists entry sec,
       directory_cache w !! url = Some entry
       /\ ce_cache_time entry = Some (TimeString sec)
       /\ (now E - sec * 1000000 < 86400 * 1000000)%Z)
  /\ (forall entry sec,
        directory_cache w !! url = Some entry ->
        ce_cache_time entry = Some (TimeString sec) ->
        (now E - sec * 1000000 = 86400 * 1000000)%Z ->
        (is_cache_valid E url w).1 = Return false)
  /\ (is_cache_valid E url w).2 = w
  /\ ((is_cache_valid E url w).1 = Return true ->
        let w' := (_fetch_directory_contents urljoin E url w).2 in
        trace w' = trace w /\ directory_cache w' = directory_cache w
        /\ exists entry,
             directory_cache w !! url = Some entry
             /\ tree w' = match ce_dir_items entry, ce_content entry with
                          | Some items, _ => items
                          | None, Some items => items
                          | None, None => []
                          end)
  /\ ((is_cache_valid E url w).1 = Return false ->
        trace (_fetch_directory_contents urljoin E url w).2 =
          (trace w ++ [LISTING (if Py.endswith_char url Py.slash then url else url ++ "/")])%list)
  /\ (forall u, is_Some (directory_cache w !! u) ->
        is_Some (directory_cache (_fetch_directory_contents urljoin E url w).2 !! u)).
Proof.
  split_and!.
  - apply is_cache_valid_true_iff.
  - intros entry sec He Hs Hb.
    unfold is_cache_valid, bind, get_world. rewrite He. cbn. rewrite Hs. cbn.
    unfold TTL. rewrite Hb. rewrite Z.ltb_irrefl. reflexivity.
  - rewrite is_cache_valid_run. reflexivity.
  - intros Hhit. pose proof Hhit as Hfresh.
    apply is_cache_valid_true_iff in Hfresh as (entry & sec & He & _).
    unfold _fetch_directory_contents, try_except, bind.
    rewrite is_cache_valid_run, Hhit. cbn. rewrite He. cbn. eauto.
  - intros Hmiss.
    unfold _fetch_directory_contents, try_except, bind.
    rewrite is_cache_valid_run, Hmiss. cbn.
    destruct (http_page E _) as [e|[a_tags|]]; try reflexivity.
    destruct (parse_error _ _ _); reflexivity.
  - intros u. apply fetch_keeps_entries.
Qed.

Lemma cache_hit_iff_fresh_witness :
  let E := demo_server NoLength 0 0 in
  (is_cache_valid E demo_listing (demo_state 1699913601 0)).1 = Return true
  /\ (is_cache_valid E demo_listing (demo_state 1699913600 0)).1 = Return false
  /\ (is_cache_valid E demo_listing (demo_state 1699913600 0)).2 = demo_state 1699913600 0.
Proof.
  intros E. split_and!.
  - apply (cache_hit_iff_fresh String.append E demo_listing (demo_state 1699913601 0)).
    eexists _, 1699913601%Z. split_and!; [reflexivity | reflexivity | reflexivity].
  - destruct (cache_hit_iff_fresh String.append E demo_listing (demo_state 1699913600 0))
      as (_ & Hedge & _).
    eapply (Hedge _ 1699913600%Z); reflexivity.
  - apply (cache_hit_iff_fresh String.append E demo_listing (demo_state 1699913600 0)).
Defined.

(** ** The download engine *)

Lemma with_files_same (w : world) (path old : string) :
  files w !! path = Some old ->
  with_files (<[path := old ++ ""]> (files w)) w = w.
Proof.
  intros H. rewrite append_empty_r, insert_id by exact H. destruct w; reflexivity.
Qed.

Section EngineFacts.
Variable E : env.

Lemma read_loop_run (path : string) (cl : content_length) (resume : Z) (body : list read) :
  forall (n : nat) (w : world) (old : string),
    files w !! path = Some old ->
    read_loop E path cl resume n body w =
      ((stream E cl n body).2,
       with_files (<[path := old ++ (stream E cl n body).1]> (files w)) w).
Proof.
  induction body as [|rd rest IH]; intros n w old Hold.
  - cbn [read_loop stream]. destruct (cancel_poll E n) as [[|]|]; cbn [fst snd];
      rewrite with_files_same by exact Hold; reflexivity.
  - cbn [read_loop stream]. destruct (cancel_poll E n) as [[|]|]; cbn [fst snd];
      try (rewrite with_files_same by exact Hold; reflexivity).
    destruct rd as [chunk|e]; cbn [fst snd];
      try (rewrite with_files_same by exact Hold; reflexivity).
    destruct (nonempty chunk); cbn [fst snd];
      try (rewrite with_files_same by exact Hold; reflexivity).
    unfold bind at 1. unfold write_file at 1. unfold bind at 1.
    cbn [get_world]. rewrite Hold. cbn [default set_files].
    unfold bind at 1. unfold lift at 1.
    destruct (int_content_length cl) as [total|e]; cbn [fst snd].
    + rewrite (IH (S n) _ (old ++ chunk)) by (cbn [files]; apply lookup_insert_eq).
      destruct (stream E cl (S n) rest) as [data r]. cbn [fst snd files].
      rewrite insert_insert_eq, append_assoc. reflexivity.
    + reflexivity.
Qed.
Lemma is_file_complete_run (url : string) (local_size : Z) (w : world) :
  _is_file_complete E url local_size w =
    (Return (verdict (http_head E url) local_size), add_event (HEAD url) w).
Proof.
  unfold _is_file_complete, try_except, bind, requests_head, bind, log, verdict,
    lift, ret, raise.
  destruct (http_head E url) as [e|cl]; [reflexivity|].
  destruct (int_content_length cl); reflexivity.
Qed.

Lemma open_file_run (path mode : string) (w : world) :
  mode = "ab" \/ mode = "wb" ->
  open_file E path mode w =
    match open_error E path mode with
    | Some e => (Raise e, add_event (OPEN path mode) w)
    | None =>
        (Return tt,
         with_files
           (<[path := if String.eqb mode "wb" then "" else default "" (files w !! path)]>
              (files w))
           (add_event (OPEN path mode) w))
    end.
Proof.
  intros Hmode. unfold open_file, bind, log.
  destruct (open_error E path mode); [reflexivity|].
  cbn [get_world files]. destruct (files w !! path) as [old|] eqn:Hold.
  - destruct Hmode as [-> | ->]; cbn.
    + rewrite insert_id by exact Hold. destruct w; reflexivity.
    + reflexivity.
  - destruct Hmode as [-> | ->]; reflexivity.
Qed.

Lemma transfer_run (url name path : string) (resume : Z) (w : world) :
  let mode := if (0 <? resume)%Z then "ab" else "wb" in
  let headers := if (0 <? resume)%Z then range_from resume else [] in
  let base := if (0 <? resume)%Z then default "" (files w !! path) else "" in
  let w1 := add_event (OPEN path mode) w in
  let w2 := add_event (GET url headers) (with_files (<[path := base]> (files w)) w1) in
  transfer E url name path resume w =
    match open_error E path mode with
    | Some e => (Raise e, w1)
    | None =>
        match http_get E url headers with
        | GetError e => (Raise e, w2)
        | GetOK cl body =>
            let data := (stream E cl 0 body).1 in
            let w3 := with_files (<[path := base ++ data]> (files w)) w2 in
            match (stream E cl 0 body).2 with
            | Raise e => (Raise e, w3)
            | Return _ =>
                let w4 := add_event (HEAD url) w3 in
                if verdict (http_head E url) (size_of (base ++ data))
                then (Return tt,
                      with_history
                        (pushed {| r_url := url; r_local_path := path; r_name := name;
                                   r_status := SUCCESS; r_time := strftime (now E) |}
                                (download_history w)) w4)
                else (Raise (Exception INCOMPLETE), w4)
            end
        end
    end.
Proof.
  intros mode headers base w1 w2. unfold transfer. fold mode.
  change (if (0 <? resume)%Z
          then [("Range", "bytes=" ++ Py.str_of_Z resume ++ "-")] else [])
    with headers.
  unfold bind at 1. rewrite open_file_run by (subst mode; destruct (0 <? resume)%Z; auto).
  fold w1. destruct (open_error E path mode) as [e|]; [reflexivity|].
  assert (Hbase : (if String.eqb mode "wb" then "" else default "" (files w !! path)) = base).
  { subst mode base. destruct (0 <? resume)%Z; reflexivity. }
  rewrite Hbase.
  unfold bind at 1. unfold urlopen at 1. unfold bind at 1. unfold log at 1.
  change (add_event (GET url headers) (with_files (<[path:=base]> (files w)) w1)) with w2.
  change {| files := files (with_files (<[path:=base]> (files w)) w1);
            directory_cache := directory_cache (with_files (<[path:=base]> (files w)) w1);
            download_history := download_history (with_files (<[path:=base]> (files w)) w1);
            tree := tree (with_files (<[path:=base]> (files w)) w1);
            trace := (trace (with_files (<[path:=base]> (files w)) w1) ++ [GET url headers])%list |}
    with w2.
  destruct (http_get E url headers) as [e|cl body]; [reflexivity|].
  unfold ret at 1. cbv beta iota. cbn [fst snd]. unfold bind at 1.
  rewrite (read_loop_run path cl resume body 0 w2 base)
    by (subst w2; cbn [files add_event with_files]; apply lookup_insert_eq).
  destruct (stream E cl 0 body) as [data r]. cbn [fst snd].
  assert (Hw3 : with_files (<[path := base ++ data]> (files w2)) w2
                = with_files (<[path := base ++ data]> (files w)) w2).
  { subst w2. cbn [files add_event with_files]. rewrite insert_insert_eq. reflexivity. }
  rewrite Hw3. destruct r as [[]|e]; [|reflexivity].
  unfold bind at 1. unfold os_path_getsize at 1. unfold bind at 1.
  cbn [get_world files with_files]. rewrite lookup_insert_eq.
  unfold ret at 1. unfold bind at 1. rewrite is_file_complete_run.
  fold (size_of (base ++ data)).
  destruct (verdict (http_head E url) (size_of (base ++ data))).
  - rewrite add_download_record_run. reflexivity.
  - reflexivity.
Qed.
Lemma download_try_run (url name path : string) (w : world) :
  download_try E url name path w =
    match files w !! path with
    | Some old =>
        if verdict (http_head E url) (size_of old)
        then (Return tt,
              with_history
                (pushed {| r_url := url; r_local_path := path; r_name := name;
                           r_status := SUCCESS; r_time := strftime (now E) |}
                        (download_history w))
                (add_event (HEAD url) w))
        else transfer E url name path (size_of old) (add_event (HEAD url) w)
    | None => transfer E url name path 0 w
    end.
Proof.
  unfold download_try. unfold bind at 1. unfold os_path_exists, bind, get_world, ret.
  destruct (files w !! path) as [old|] eqn:Hold.
  - rewrite bool_decide_eq_true_2 by eauto.
    unfold os_path_getsize, bind, get_world, ret. rewrite Hold.
    rewrite is_file_complete_run. fold (size_of old).
    destruct (verdict (http_head E url) (size_of old)).
    + rewrite add_download_record_run. reflexivity.
    + reflexivity.
  - rewrite bool_decide_eq_false_2 by (intros [x Hx]; discriminate). reflexivity.
Qed.

Lemma download_file_run (url dir : string) (w : world) :
  _download_file E url dir w =
    match download_try E url (file_name_of url) (Py.path_join dir (file_name_of url)) w with
    | (Return a, w') => (Return a, w')
    | (Raise e, w') =>
        (Raise e,
         if is_cancel e then w'
         else with_history (pushed (failure_record E url) (download_history w')) w')
    end.
Proof.
  unfold _download_file, try_except.
  destruct (download_try _ _ _ _ _) as [[a|e] w']; [reflexivity|].
  unfold bind, is_cancel. destruct (Py.contains "已取消" (str e)); cbn [negb].
  - reflexivity.
  - rewrite add_download_record_run. reflexivity.
Qed.

Lemma verdict_true (reply : head_reply) (local_size : Z) :
  verdict reply local_size = true <->
    exists cl remote_size,
      reply = HeadOK cl /\ int_content_length cl = Return remote_size
      /\ (remote_size - 1024 <= local_size)%Z.
Proof.
  unfold verdict. destruct reply as [e|cl].
  - split; [discriminate | intros (c & n & H & _); discriminate].
  - destruct (int_content_length cl) as [n|e] eqn:Hcl.
    + rewrite Z.geb_le. split.
      * intros H. exists cl, n. auto.
      * intros (c & m & Hc & Hm & Hle). injection Hc as <-.
        rewrite Hcl in Hm. injection Hm as <-. exact Hle.
    + split; [discriminate|]. intros (c & m & Hc & Hm & _). injection Hc as <-.
      rewrite Hcl in Hm. discriminate.
Qed.
End EngineFacts.

(** C1: when the target file exists and is no more than 1024 bytes short of
    the [Content-Length] the probe reports, the download sends the probe and
    nothing else, leaves every local file as it is, enters a Success record
    for the file at the front of the ledger, and returns. *)
Theorem complete_file_is_not_fetched (E : env) (url dir : string) (w : world)
    (old : string) (cl : content_length) (remote_size : Z) :
  files w !! Py.path_join dir (file_name_of url) = Some old ->
  http_head E url = HeadOK cl ->
  int_content_length cl = Return remote_size ->
  (remote_size - 1024 <= size_of old)%Z ->
  let '(r, w') := _download_file E url dir w in
  r = Return tt
  /\ trace w' = (trace w ++ [HEAD url])%list
  /\ files w' = files w
  /\ download_history w' = take MAX_HISTORY (success_record E url dir :: download_history w).
Proof.
  intros Hold Hhead Hcl Hle.
  rewrite download_file_run, download_try_run, Hold.
  assert (Hv : verdict (http_head E url) (size_of old) = true).
  { apply verdict_true. exists cl, remote_size. auto. }
  rewrite Hv. cbn. auto.
Qed.

Lemma complete_file_is_not_fetched_witness :
  files (demo_world (Some 2500)) !! Py.path_join demo_dir (file_name_of demo_url)
    = Some (zeros 2500)
  /\ (let '(r, w') :=
         _download_file (demo_server (Length 3000) 500 500) demo_url demo_dir
           (demo_world (Some 2500)) in
       r = Return tt
       /\ trace w' = [HEAD demo_url]
       /\ files w' = files (demo_world (Some 2500))
       /\ download_history w' =
            [success_record (demo_server (Length 3000) 500 500) demo_url demo_dir]).
Proof.
  split; [reflexivity|].
  apply (complete_file_is_not_fetched (demo_server (Length 3000) 500 500) demo_url demo_dir
           (demo_world (Some 2500)) (zeros 2500) (Length 3000) 3000).
  - reflexivity.
  - reflexivity.
  - reflexivity.
  - vm_compute. discriminate.
Defined.

Lemma handler_keeps (E : env) (url : string) (e : exn) (w' : world) :
  let w'' := if is_cancel e then w'
             else with_history (pushed (failure_record E url) (download_history w')) w' in
  trace w'' = trace w' /\ files w'' = files w'.
Proof. simpl. destruct (is_cancel e); split; reflexivity. Qed.

(** C2, as the code has it: a download that finds [P > 0] bytes of a file
    that is not complete opens it for appending and asks for the rest with
    [Range: bytes=P-]; one that finds no bytes opens it for writing and sends
    no [Range]; what arrives is put after the bytes kept; and when the
    download succeeds, the file is no more than 1024 bytes short of the
    [Content-Length] the probe reports. *)
Theorem resume_sends_range (E : env) (url dir : string) (w : world) :
  let path := Py.path_join dir (file_name_of url) in
  let P := match files w !! path with Some old => size_of old | None => 0%Z end in
  let mode := if (0 <? P)%Z then "ab" else "wb" in
  let headers := if (0 <? P)%Z then range_from P else [] in
  let probe := match files w !! path with Some _ => [HEAD url] | None => [] end in
  let base := if (0 <? P)%Z then default "" (files w !! path) else "" in
  (forall old, files w !! path = Some old ->
               verdict (http_head E url) (size_of old) = false) ->
  open_error E path mode = None ->
  let '(r, w') := _download_file E url dir w in
  exists received rest,
    trace w' = (trace w ++ probe ++ [OPEN path mode; GET url headers] ++ rest)%list
    /\ files w' !! path = Some (base ++ received)
    /\ (r = Return tt ->
        exists cl remote_size,
          http_head E url = HeadOK cl
          /\ int_content_length cl = Return remote_size
          /\ (remote_size - 1024 <= size_of (base ++ received))%Z).
Proof.
  intros path P mode headers probe base Hpre Hopen.
  rewrite download_file_run, download_try_run. fold path.
  assert (Hrun : forall w0,
             files w0 = files w ->
             trace w0 = (trace w ++ probe)%list ->
             let '(r, w') :=
               match transfer E url (file_name_of url) path P w0 with
               | (Return a, w') => (Return a, w')
               | (Raise e, w') =>
                   (Raise e,
                    if is_cancel e then w'
                    else with_history
                           (pushed (failure_record E url) (download_history w')) w')
               end in
             exists received rest,
               trace w' = (trace w ++ probe ++ [OPEN path mode; GET url headers] ++ rest)%list
               /\ files w' !! path = Some (base ++ received)
               /\ (r = Return tt ->
                   exists cl remote_size,
                     http_head E url = HeadOK cl
                     /\ int_content_length cl = Return remote_size
                     /\ (remote_size - 1024 <= size_of (base ++ received))%Z)).
  { intros w0 Hf Ht. rewrite transfer_run. fold mode. fold headers. rewrite Hf. fold base.
    rewrite Hopen.
    destruct (http_get E url headers) as [e|cl body].
    - pose proof (handler_keeps E url e
        (add_event (GET url headers)
           (with_files (<[path:=base]> (files w)) (add_event (OPEN path mode) w0)))) as [Htr Hfl].
      exists "", []. rewrite Htr, Hfl. cbn [trace files add_event with_files].
      rewrite Ht, append_empty_r, lookup_insert_eq, <- !app_assoc.
      split_and!; [reflexivity | reflexivity | discriminate].
    - destruct (stream E cl 0 body) as [data [[]|e]]; cbn [fst snd].
      + destruct (verdict (http_head E url) (size_of (base ++ data))) eqn:Hv.
        * exists data, [HEAD url]. cbn [trace files add_event with_files with_history].
          rewrite Ht, lookup_insert_eq, <- !app_assoc.
          split_and!; [reflexivity | reflexivity |].
          intros _. apply verdict_true in Hv. exact Hv.
        * match goal with
          | |- context [if is_cancel ?e then ?w1 else _] =>
              pose proof (handler_keeps E url e w1) as [Htr Hfl]
          end.
          exists data, [HEAD url]. rewrite Htr, Hfl.
          cbn [trace files add_event with_files].
          rewrite Ht, lookup_insert_eq, <- !app_assoc.
          split_and!; [reflexivity | reflexivity | discriminate].
      + match goal with
        | |- context [if is_cancel ?e then ?w1 else _] =>
            pose proof (handler_keeps E url e w1) as [Htr Hfl]
        end.
        exists data, []. rewrite Htr, Hfl.
        cbn [trace files add_event with_files].
        rewrite Ht, lookup_insert_eq, <- !app_assoc.
        split_and!; [reflexivity | reflexivity | discriminate]. }
  subst P probe. destruct (files w !! path) as [old|] eqn:Hold.
  - rewrite (Hpre old eq_refl).
    apply (Hrun (add_event (HEAD url) w)); reflexivity.
  - apply (Hrun w); [reflexivity | symmetry; apply app_nil_r].
Qed.

Lemma resume_sends_range_witness :
  open_error (demo_server (Length 3000) 2000 2000) demo_path "ab" = None
  /\ (let '(r, w') :=
        _download_file (demo_server (Length 3000) 2000 2000) demo_url demo_dir
          (demo_world (Some 1000)) in
      exists received rest,
        trace w' = ([] ++ [HEAD demo_url]
                    ++ [OPEN demo_path "ab"; GET demo_url (range_from 1000)] ++ rest)%list
        /\ files w' !! demo_path = Some (zeros 1000 ++ received)
        /\ (r = Return tt ->
            exists cl remote_size,
              http_head (demo_server (Length 3000) 2000 2000) demo_url = HeadOK cl
              /\ int_content_length cl = Return remote_size
              /\ (remote_size - 1024 <= size_of (zeros 1000 ++ received))%Z)).
Proof.
  split; [reflexivity|].
  apply (resume_sends_range (demo_server (Length 3000) 2000 2000) demo_url demo_dir
           (demo_world (Some 1000))).
  - intros old Hold. vm_compute in Hold. injection Hold as <-. reflexivity.
  - reflexivity.
Defined.

(** C2, the counterexample: the server reports 3000 bytes; 1000 are on disk;
    the request for the other 2000 brings 1500 bytes and the stream ends.
    The download succeeds with a file of 2500 bytes, not 3000. *)
Lemma resumed_file_may_fall_short :
  let E := demo_server (Length 3000) 2000 1500 in
  let '(r, w') := _download_file E demo_url demo_dir (demo_world (Some 1000)) in
  r = Return tt
  /\ trace w' = [HEAD demo_url; OPEN demo_path "ab"; GET demo_url (range_from 1000);
                 HEAD demo_url]
  /\ http_head E demo_url = HeadOK (Length 3000)
  /\ r_status <$> head (download_history w') = Some SUCCESS
  /\ size_of <$> files w' !! demo_path = Some 2500%Z
  /\ size_of <$> files w' !! demo_path <> Some 3000%Z.
Proof. vm_compute. split_and!; try reflexivity. discriminate. Qed.

Section Outcomes.
Variable E : env.

Lemma transfer_history (url name path : string) (P : Z) (w0 : world) :
  match transfer E url name path P w0 with
  | (Return _, w') =>
      download_history w' =
        pushed {| r_url := url; r_local_path := path; r_name := name;
                  r_status := SUCCESS; r_time := strftime (now E) |}
               (download_history w0)
  | (Raise _, w') => download_history w' = download_history w0
  end.
Proof.
  rewrite transfer_run. cbv zeta.
  destruct (open_error E path _); [reflexivity|].
  destruct (http_get E url _) as [e|cl body]; [reflexivity|].
  destruct (stream E cl 0 body) as [data [[]|e]]; cbn [fst snd]; [|reflexivity].
  destruct (verdict _ _); reflexivity.
Qed.

(** The loop raises an error worded like a cancellation only when it read
    the flag as set, or when a read failed with such an error. *)
Lemma stream_raise_plain (cl : content_length) (body : list read) :
  forall n e,
    Forall read_error_free body ->
    (forall k, cancel_poll E k <> Some true) ->
    (stream E cl n body).2 = Raise e ->
    is_cancel e = false.
Proof.
  induction body as [|rd rest IH]; intros n e Hfree Hpoll Hr; cbn [stream] in Hr.
  - destruct (cancel_poll E n) as [[|]|] eqn:Hn; cbn [snd] in Hr.
    + exfalso. exact (Hpoll n Hn).
    + discriminate.
    + injection Hr as <-. reflexivity.
  - apply Forall_cons in Hfree as [Hrd Hrest].
    destruct (cancel_poll E n) as [[|]|] eqn:Hn; cbn [snd] in Hr.
    + exfalso. exact (Hpoll n Hn).
    + destruct rd as [chunk|e']; cbn [snd] in Hr.
      * destruct (nonempty chunk); cbn [snd] in Hr; [|discriminate].
        destruct cl as [| |len]; cbn [int_content_length] in Hr.
        -- destruct (stream E NoLength (S n) rest) as [data r] eqn:Hs.
           cbn [snd] in Hr. subst r. apply (IH (S n) e Hrest Hpoll). rewrite Hs. reflexivity.
        -- cbn [snd] in Hr. injection Hr as <-. reflexivity.
        -- destruct (stream E (Length len) (S n) rest) as [data r] eqn:Hs.
           cbn [snd] in Hr. subst r. apply (IH (S n) e Hrest Hpoll). rewrite Hs. reflexivity.
      * injection Hr as <-. exact Hrd.
    + injection Hr as <-. reflexivity.
Qed.

Lemma transfer_raise_plain (url name path : string) (P : Z) (w0 : world) (e : exn) :
  plain_errors E ->
  (forall k, cancel_poll E k <> Some true) ->
  (transfer E url name path P w0).1 = Raise e ->
  is_cancel e = false.
Proof.
  intros [Hopen Hget Hread] Hpoll. rewrite transfer_run. cbv zeta.
  destruct (open_error E path _) as [e0|] eqn:Ho.
  { cbn [fst]. intros Heq. injection Heq as <-. exact (Hopen _ _ _ Ho). }
  destruct (http_get E url _) as [e0|cl body] eqn:Hg.
  { cbn [fst]. intros Heq. injection Heq as <-. exact (Hget _ _ _ Hg). }
  destruct (stream E cl 0 body) as [data r] eqn:Hs. cbn [fst snd].
  destruct r as [[]|e0].
  - destruct (verdict _ _); cbn [fst]; [discriminate|].
    intros Heq. injection Heq as <-. reflexivity.
  - cbn [fst]. intros Heq. injection Heq as <-.
    apply (stream_raise_plain cl body 0 e0 (Hread _ _ _ _ Hg) Hpoll).
    rewrite Hs. reflexivity.
Qed.
End Outcomes.

(** What a download enters in the ledger.  When the stream has ended the
    engine probes the server again and holds the answer against the size the
    local file now has; if the file falls short the download fails, and the
    bytes written stay on disk.  A return is entered at the front of the
    ledger as a Success with the local path, and an error as a Failure with an
    empty path unless its text holds the word for "cancelled"; when no flag
    is read as set and no error of the environment is worded that way, every
    ending is entered. *)
Theorem outcome_is_recorded (E : env) (url dir : string) (w : world) :
  let path := Py.path_join dir (file_name_of url) in
  let P := match files w !! path with Some old => size_of old | None => 0%Z end in
  let mode := if (0 <? P)%Z then "ab" else "wb" in
  let headers := if (0 <? P)%Z then range_from P else [] in
  let base := if (0 <? P)%Z then default "" (files w !! path) else "" in
  let '(r, w') := _download_file E url dir w in
  match r with
  | Return _ =>
      download_history w' = take MAX_HISTORY (success_record E url dir :: download_history w)
  | Raise e =>
      if is_cancel e then download_history w' = download_history w
      else download_history w' = take MAX_HISTORY (failure_record E url :: download_history w)
  end
  /\ (plain_errors E -> (forall n, cancel_poll E n <> Some true) ->
      forall e, r = Raise e -> is_cancel e = false)
  /\ ((forall old, files w !! path = Some old ->
                   verdict (http_head E url) (size_of old) = false) ->
      open_error E path mode = None ->
      forall cl body,
        http_get E url headers = GetOK cl body ->
        (stream E cl 0 body).2 = Return tt ->
        let final := base ++ (stream E cl 0 body).1 in
        last (trace w') = Some (HEAD url)
        /\ files w' !! path = Some final
        /\ if verdict (http_head E url) (size_of final)
           then r = Return tt
           else r = Raise (Exception INCOMPLETE)
                /\ r_status <$> head (download_history w') = Some FAILURE).
Proof.
  intros path P mode headers base.
  rewrite download_file_run, download_try_run. fold path.
  assert (Hrun : forall w0,
             files w0 = files w -> download_history w0 = download_history w ->
             let '(r, w') :=
               match transfer E url (file_name_of url) path P w0 with
               | (Return a, w') => (Return a, w')
               | (Raise e, w') =>
                   (Raise e,
                    if is_cancel e then w'
                    else with_history
                           (pushed (failure_record E url) (download_history w')) w')
               end in
             match r with
             | Return _ =>
                 download_history w' =
                   take MAX_HISTORY (success_record E url dir :: download_history w)
             | Raise e =>
                 if is_cancel e then download_history w' = download_history w
                 else download_history w' =
                        take MAX_HISTORY (failure_record E url :: download_history w)
             end
             /\ (plain_errors E -> (forall n, cancel_poll E n <> Some true) ->
                 forall e, r = Raise e -> is_cancel e = false)
             /\ (open_error E path mode = None ->
                 forall cl body,
                   http_get E url headers = GetOK cl body ->
                   (stream E cl 0 body).2 = Return tt ->
                   let final := base ++ (stream E cl 0 body).1 in
                   last (trace w') = Some (HEAD url)
                   /\ files w' !! path = Some final
                   /\ if verdict (http_head E url) (size_of final)
                      then r = Return tt
                      else r = Raise (Exception INCOMPLETE)
                           /\ r_status <$> head (download_history w') = Some FAILURE)).
  { intros w0 Hf Hh.
    pose proof (transfer_history E url (file_name_of url) path P w0) as Hth.
    pose proof (fun e => transfer_raise_plain E url (file_name_of url) path P w0 e) as Htr.
    pose proof (transfer_run E url (file_name_of url) path P w0) as Heq.
    cbv zeta in Heq. fold mode in Heq. fold headers in Heq. rewrite Hf in Heq.
    fold base in Heq.
    destruct (transfer E url (file_name_of url) path P w0) as [[a|e] w'].
    - split_and!.
      + rewrite Hth, Hh. reflexivity.
      + discriminate.
      + intros Hopen cl body Hget Hend. rewrite Hopen, Hget, Hend in Heq. cbv zeta.
        destruct (verdict (http_head E url) (size_of (base ++ (stream E cl 0 body).1)));
          [|discriminate Heq].
        injection Heq as _ ->.
        cbn [trace files add_event with_files with_history].
        rewrite last_snoc, lookup_insert_eq. destruct a. auto.
    - split_and!.
      + destruct (is_cancel e); cbn [download_history with_history];
          rewrite Hth, Hh; reflexivity.
      + intros Hplain Hpoll e' Heq'. injection Heq' as <-. apply Htr; auto.
      + intros Hopen cl body Hget Hend. rewrite Hopen, Hget, Hend in Heq. cbv zeta.
        destruct (verdict (http_head E url) (size_of (base ++ (stream E cl 0 body).1)));
          [discriminate Heq|].
        injection Heq as -> ->.
        change (is_cancel (Exception INCOMPLETE)) with false. cbv iota.
        cbn [trace files add_event with_files with_history download_history].
        rewrite last_snoc, lookup_insert_eq. split_and!; reflexivity. }
  subst P. destruct (files w !! path) as [old|] eqn:Hold.
  - destruct (verdict (http_head E url) (size_of old)) eqn:Hv.
    + split_and!.
      * reflexivity.
      * intros _ _ e. discriminate.
      * intros Hpre. rewrite (Hpre old eq_refl) in Hv. discriminate.
    + pose proof (Hrun (add_event (HEAD url) w) eq_refl eq_refl) as Hr.
      destruct (transfer E url (file_name_of url) path (size_of old) _) as [[a|e] w'];
        destruct Hr as (H1 & H2 & H3); split_and!; auto.
  - pose proof (Hrun w eq_refl eq_refl) as Hr.
    destruct (transfer E url (file_name_of url) path 0 w) as [[a|e] w'];
      destruct Hr as (H1 & H2 & H3); split_and!; auto.
Qed.

Lemma outcome_is_recorded_witness :
  let E := demo_server (Length 3000) 3000 500 in
  let '(r, w') := _download_file E demo_url demo_dir (demo_world None) in
  last (trace w') = Some (HEAD demo_url)
  /\ files w' !! demo_path = Some (zeros 500)
  /\ r = Raise (Exception INCOMPLETE)
  /\ r_status <$> head (download_history w') = Some FAILURE.
Proof.
  intros E.
  pose proof (outcome_is_recorded E demo_url demo_dir (demo_world None)) as H.
  cbv zeta in H.
  destruct (_download_file E demo_url demo_dir (demo_world None)) as [r w'].
  destruct H as (_ & _ & H).
  assert (Hpre : forall old,
             files (demo_world None) !! Py.path_join demo_dir (file_name_of demo_url)
               = Some old ->
             verdict (http_head E demo_url) (size_of old) = false).
  { intros old Hold. vm_compute in Hold. discriminate. }
  specialize (H Hpre eq_refl (Length 3000) [Chunk (zeros 500)] eq_refl eq_refl).
  destruct H as (Hlast & Hfile & Hend).
  split_and!; [exact Hlast | exact Hfile | apply Hend | apply Hend].
Defined.

(** C3: the handler leaves out of the ledger every error whose text holds
    the word for "cancelled", not only the cancellation the download raises
    itself.  Here nobody cancels: the download into a directory named with
    that word fails because the file cannot be opened, the error names the
    path, and the failure is not entered in the ledger; the same failure in
    a directory with another name is entered. *)
Theorem failure_worded_as_cancel_is_not_recorded :
  (forall n, cancel_poll (demo_denied demo_cancel_dir) n = Some false)
  /\ _download_file (demo_denied demo_cancel_dir) demo_url demo_cancel_dir
       (demo_world None)
     = (Raise (Exception "[Errno 13] Permission denied: '/data/已取消/a.fits'"),
        add_event (OPEN "/data/已取消/a.fits" "wb") (demo_world None))
  /\ download_history
       (_download_file (demo_denied demo_cancel_dir) demo_url demo_cancel_dir
          (demo_world None)).2 = []
  /\ download_history
       (_download_file (demo_denied demo_dir) demo_url demo_dir (demo_world None)).2
     = [failure_record (demo_denied demo_dir) demo_url].
Proof.
  split_and!.
  - intros n. reflexivity.
  - vm_compute. reflexivity.
  - vm_compute. reflexivity.
  - vm_compute. reflexivity.
Qed.

(** ** A probe without [Content-Length] *)

Lemma is_file_complete_false (E : env) (url : string) (local_size : Z) (w : world) :
  (_is_file_complete E url local_size w).1 = Return false <->
    (exists e, http_head E url = HeadError e)
    \/ http_head E url = HeadOK BadLength
    \/ (exists n, http_head E url = HeadOK (Length n) /\ (local_size < n - 1024)%Z)
    \/ (http_head E url = HeadOK NoLength /\ (local_size < - 1024)%Z).
Proof.
  rewrite is_file_complete_run. cbn [fst]. unfold verdict.
  destruct (http_head E url) as [e|[| |n]]; cbn [int_content_length].
  - split; [eauto | reflexivity].
  - destruct (Z.geb_spec local_size (0 - 1024)) as [Hge|Hlt].
    + split; [discriminate|].
      intros [[e He]|[He|[[n [He _]]|[_ Hl]]]]; try discriminate. lia.
    + split; [|reflexivity]. intros _. right. right. right. split; [reflexivity|lia].
  - split; [auto | reflexivity].
  - destruct (Z.geb_spec local_size (n - 1024)) as [Hge|Hlt].
    + split; [discriminate|].
      intros [[e He]|[He|[[m [He Hl]]|[He _]]]]; try discriminate.
      injection He as <-. lia.
    + split; [|reflexivity]. intros _. right. right. left. eauto.
Qed.

(** C10: a probe that succeeds without [Content-Length] makes the check take
    the remote size for 0, so a local file of any size counts as complete: a
    file already on disk is entered as a Success without a request for its
    bytes, and a download whose stream has ended never fails the check.  For
    a server whose answers carry no [Content-Length], the check says no only
    when the probe itself raises. *)
Theorem missing_length_counts_as_complete (E : env) (url dir : string) (w : world) :
  let path := Py.path_join dir (file_name_of url) in
  (http_head E url = HeadOK NoLength ->
     (forall local_size, (0 <= local_size)%Z ->
        _is_file_complete E url local_size w = (Return true, add_event (HEAD url) w))
     /\ (forall old, files w !! path = Some old ->
           _download_file E url dir w =
             (Return tt,
              with_history (pushed (success_record E url dir) (download_history w))
                (add_event (HEAD url) w)))
     /\ (forall cl body,
           files w !! path = None ->
           open_error E path "wb" = None ->
           http_get E url [] = GetOK cl body ->
           (stream E cl 0 body).2 = Return tt ->
           (_download_file E url dir w).1 = Return tt))
  /\ ((forall cl, http_head E url = HeadOK cl -> cl = NoLength) ->
      forall local_size, (0 <= local_size)%Z ->
        ((_is_file_complete E url local_size w).1 = Return false <->
           exists e, http_head E url = HeadError e)).
Proof.
  intros path. split.
  - intros Hhead.
    assert (Hv : forall sz, (0 <= sz)%Z -> verdict (http_head E url) sz = true).
    { intros sz Hsz. rewrite Hhead. cbn. apply Z.geb_le. lia. }
    split_and!.
    + intros sz Hsz. rewrite is_file_complete_run, Hv by exact Hsz. reflexivity.
    + intros old Hold. rewrite download_file_run, download_try_run. fold path.
      rewrite Hold, Hv by (unfold size_of; lia). reflexivity.
    + intros cl body Hnone Hopen Hget Hend.
      rewrite download_file_run, download_try_run. fold path. rewrite Hnone.
      rewrite transfer_run. cbv zeta. change (0 <? 0)%Z with false. cbv iota.
      rewrite Hopen, Hget, Hend, Hv by (unfold size_of; lia). reflexivity.
  - intros Hno sz Hsz. rewrite is_file_complete_false. split.
    + intros [H|[H|[[n [H _]]|[_ H]]]]; [exact H | | | lia].
      * specialize (Hno _ H). discriminate.
      * specialize (Hno _ H). discriminate.
    + intros H. left. exact H.
Qed.

Lemma missing_length_counts_as_complete_witness :
  let E := demo_server NoLength 500 500 in
  http_head E demo_url = HeadOK NoLength
  /\ _is_file_complete E demo_url 1 (demo_world (Some 1)) =
       (Return true, add_event (HEAD demo_url) (demo_world (Some 1)))
  /\ _download_file E demo_url demo_dir (demo_world (Some 1)) =
       (Return tt,
        with_history [success_record E demo_url demo_dir]
          (add_event (HEAD demo_url) (demo_world (Some 1)))).
Proof.
  intros E.
  destruct (missing_length_counts_as_complete E demo_url demo_dir (demo_world (Some 1)))
    as [H _].
  destruct (H eq_refl) as (Hcheck & Hfile & _).
  split_and!.
  - reflexivity.
  - apply Hcheck. lia.
  - apply (Hfile (zeros 1)). reflexivity.
Defined.

(** ** Cancellation *)

(** The copy loop stops with the cancellation error in the round in which
    it reads the flag as set, and keeps what the rounds before have written. *)
Lemma stream_flag_set (E : env) (cl : content_length) (total : Z)
    (chunks : list string) (rest : list read) :
  int_content_length cl = Return total ->
  Forall (fun c => nonempty c = true) chunks ->
  forall n,
    (forall i, (i < length chunks)%nat -> cancel_poll E (n + i) = Some false) ->
    cancel_poll E (n + length chunks) = Some true ->
    stream E cl n (map Chunk chunks ++ rest)
      = (fold_right String.append "" chunks, Raise (Exception CANCELLED)).
Proof.
  intros Hcl Hne. induction Hne as [|c chunks Hc Hne IH]; intros n Hfalse Htrue.
  - cbn [length] in Htrue. rewrite Nat.add_0_r in Htrue.
    destruct rest; cbn [map app stream]; rewrite Htrue; reflexivity.
  - cbn [map app stream].
    pose proof (Hfalse 0%nat ltac:(cbn; lia)) as H0. rewrite Nat.add_0_r in H0.
    rewrite H0, Hc, Hcl.
    rewrite (IH (S n)).
    + reflexivity.
    + intros i Hi. replace (S n + i)%nat with (n + S i)%nat by lia.
      apply Hfalse. cbn. lia.
    + replace (S n + length chunks)%nat with (n + length (c :: chunks))%nat by (cbn; lia).
      exact Htrue.
Qed.

Module BatchFacts.
Import Batch.

Ltac step_cases Hstep :=
  destruct Hstep as [s | s item rest Hw Hi Hc | s item rest Hw Hi Hc | s item rest Hw Hi
                    | s Hw Hi | s t rest Hq Hr | s f Hin Hab | s f before after Hw Hcomp
                    | s Hw Hq Hr Hcomp | s f Hw Hc | s f Hw Hc | s f Hw].

Lemma counted_start (items : list row) : counted (start items).
Proof. split; reflexivity. Qed.

Lemma counted_step (max_workers : nat) (s s' : state) :
  step max_workers s s' -> counted s -> counted s'.
Proof.
  intros Hstep [Hcount Hyield]. step_cases Hstep; try (split; assumption).
  unfold counted, tally.
  destruct (out f) as [[|] file_name error | e];
    cbn [success fail tallied yielded]; rewrite length_app; cbn [length]; lia.
Qed.

Lemma counted_reachable (max_workers : nat) (items : list row) (s : state) :
  reachable max_workers items s -> counted s.
Proof.
  unfold reachable. intros Hs.
  assert (Hgen : forall a b, rtc (move max_workers) a b -> counted a -> counted b).
  { induction 1 as [a | a b c [Hstep|Hother] Hrest IH]; intros Ha; [exact Ha | |].
    - apply IH. exact (counted_step max_workers a b Hstep Ha).
    - apply IH. destruct Hother. exact Ha. }
  exact (Hgen _ _ Hs (counted_start items)).
Qed.

Lemma alone_reachable (max_workers : nat) (items : list row) (s : state) :
  alone max_workers items s -> reachable max_workers items s.
Proof.
  unfold alone, reachable, steps. apply rtc_subrel. intros a b H. left. exact H.
Qed.

Lemma sound_start (items : list row) : sound (start items).
Proof.
  unfold sound, start; cbn. split_and!; auto; intros f H; discriminate.
Qed.

Lemma sound_step (max_workers : nat) (s s' : state) :
  step max_workers s s' -> sound s -> sound s'.
Proof.
  intros Hstep (Hflag & Hcompleted & Hyielded & Hcounting & Htallied).
  step_cases Hstep; unfold sound;
    cbn [press_cancel goto submit take_task finish hand_over
         cancel_download pressed where_ completed tallied].
  - (* the button *)
    split_and!; auto; discriminate.
  - split_and!; auto; intros f H; discriminate.
  - split_and!; auto; intros f H; discriminate.
  - split_and!; auto; intros f H; discriminate.
  - split_and!; auto; intros f H; discriminate.
  - split_and!; auto.
  - (* a worker finishes *)
    split_and!; auto. intros Hp. apply Forall_app. split; [auto|].
    constructor; [|constructor].
    destruct (aborted f); [|reflexivity]. rewrite Hab in Hp by reflexivity. discriminate.
  - (* a future is handed over *)
    split_and!; auto.
    + intros Hp. specialize (Hcompleted Hp). rewrite Hcomp in Hcompleted.
      apply Forall_app in Hcompleted as [Hb Ha]. apply Forall_cons in Ha as [_ Ha].
      apply Forall_app. auto.
    + intros f' Hf Hp. injection Hf as <-. specialize (Hcompleted Hp).
      rewrite Hcomp in Hcompleted. apply Forall_app in Hcompleted as [_ Ha].
      apply Forall_cons in Ha as [Ha _]. exact Ha.
    + intros f' H. discriminate.
  - split_and!; auto; intros f H; discriminate.
  - (* the flag is found clear *)
    split_and!; auto.
    + intros f' H. discriminate.
    + intros f' Hf. injection Hf as <-. apply (Hyielded f Hw). congruence.
  - split_and!; auto; intros f' H; discriminate.
  - (* a result is counted *)
    specialize (Hcounting f Hw).
    unfold tally. destruct (out f) as [[|] file_name error | e];
      cbn [cancel_download pressed where_ completed tallied];
      (split_and!; auto; try (intros f' H; discriminate); apply Forall_app; auto).
Qed.

Lemma sound_alone (max_workers : nat) (items : list row) (s : state) :
  alone max_workers items s -> sound s.
Proof.
  unfold alone, steps. intros Hs.
  assert (Hgen : forall a b, rtc (step max_workers) a b -> sound a -> sound b).
  { induction 1 as [a | a b c Hstep Hrest IH]; intros Ha; [exact Ha|].
    apply IH. exact (sound_step max_workers a b Hstep Ha). }
  exact (Hgen _ _ Hs (sound_start items)).
Qed.

(** Once the flag is set, a step of the batch submits only if the test was
    passed before, and counts only if the test was passed before. *)
Lemma step_after_cancel (max_workers : nat) (s s' : state) :
  step max_workers s s' ->
  cancel_download s = true ->
  cancel_download s' = true
  /\ (submitted s' + to_submit (where_ s') = submitted s + to_submit (where_ s))%nat
  /\ (submitted s <= submitted s')%nat
  /\ (submitted s' = submitted s -> items_left s' = items_left s)
  /\ (length (tallied s') + to_count (where_ s')
      <= length (tallied s) + to_count (where_ s))%nat
  /\ (length (tallied s) <= length (tallied s'))%nat
  /\ (length (tallied s') = length (tallied s) ->
      tallied s' = tallied s /\ success s' = success s /\ fail s' = fail s
      /\ fail_list s' = fail_list s).
Proof.
  intros Hstep Hset.
  step_cases Hstep; try congruence;
    try (cbn; rewrite ?Hw; cbn; split_and!; auto; lia).
  (* the result whose test was passed is counted *)
  unfold tally. destruct (out f) as [[|] file_name error | e];
      cbn; rewrite Hw, length_app; cbn; split_and!; solve [auto | lia | intros; lia].
Qed.

Lemma steps_after_cancel (max_workers : nat) (s s' : state) :
  steps max_workers s s' ->
  cancel_download s = true ->
  cancel_download s' = true
  /\ (submitted s' + to_submit (where_ s') = submitted s + to_submit (where_ s))%nat
  /\ (submitted s <= submitted s')%nat
  /\ (submitted s' = submitted s -> items_left s' = items_left s)
  /\ (length (tallied s') + to_count (where_ s')
      <= length (tallied s) + to_count (where_ s))%nat
  /\ (length (tallied s) <= length (tallied s'))%nat
  /\ (length (tallied s') = length (tallied s) ->
      tallied s' = tallied s /\ success s' = success s /\ fail s' = fail s
      /\ fail_list s' = fail_list s).
Proof.
  unfold steps. induction 1 as [s | s1 s2 s3 Hstep Hrest IH]; intros Hset.
  - split_and!; auto.
  - destruct (step_after_cancel max_workers s1 s2 Hstep Hset)
      as (Hc & H1 & H2 & H3 & H4 & H5 & H6).
    destruct (IH Hc) as (Hc' & H1' & H2' & H3' & H4' & H5' & H6').
    split_and!; [exact Hc' | lia | lia | | lia | lia |].
    + intros Heq. rewrite H3' by lia. apply H3. lia.
    + intros Heq. destruct H6' as (Ha & Hb & Hd & He); [lia|].
      destruct H6 as (Ha' & Hb' & Hd' & He'); [lia|].
      split_and!; congruence.
Qed.

(** The tallies only grow, whatever moves. *)
Lemma step_tallied (max_workers : nat) (s s' : state) :
  step max_workers s s' ->
  (exists more, tallied s' = (tallied s ++ more)%list)
  /\ (success s <= success s')%nat /\ (fail s <= fail s')%nat.
Proof.
  intros Hstep.
  step_cases Hstep;
    try (cbn; split; [exists []; symmetry; apply app_nil_r | lia]).
  unfold tally. destruct (out f) as [[|] file_name error | e]; cbn;
    (split; [exists [f]; reflexivity | lia]).
Qed.

Lemma steps_tallied (max_workers : nat) (s s' : state) :
  steps max_workers s s' ->
  (exists more, tallied s' = (tallied s ++ more)%list)
  /\ (success s <= success s')%nat /\ (fail s <= fail s')%nat.
Proof.
  unfold steps. induction 1 as [s | s1 s2 s3 Hstep Hrest IH].
  - split; [exists []; symmetry; apply app_nil_r | lia].
  - destruct (step_tallied max_workers s1 s2 Hstep) as ([m1 Hm1] & Hs1 & Hf1).
    destruct IH as ([m2 Hm2] & Hs2 & Hf2).
    split; [|lia]. exists (m1 ++ m2)%list. rewrite Hm2, Hm1, app_assoc. reflexivity.
Qed.

End BatchFacts.

(** A download whose loop reads the flag as set in round [length chunks],
    after that many chunks, ends with the cancellation error, leaves the
    ledger as it was and keeps the bytes written. *)
Lemma cancelled_download_not_recorded (E : env) (url dir : string) (w : world)
    (cl : content_length) (total : Z) (chunks : list string) (rest : list read) :
  let path := Py.path_join dir (file_name_of url) in
  let P := match files w !! path with Some old => size_of old | None => 0%Z end in
  let mode := if (0 <? P)%Z then "ab" else "wb" in
  let headers := if (0 <? P)%Z then range_from P else [] in
  let base := if (0 <? P)%Z then default "" (files w !! path) else "" in
  (forall old, files w !! path = Some old ->
               verdict (http_head E url) (size_of old) = false) ->
  open_error E path mode = None ->
  http_get E url headers = GetOK cl (map Chunk chunks ++ rest) ->
  int_content_length cl = Return total ->
  Forall (fun c => nonempty c = true) chunks ->
  (forall i, (i < length chunks)%nat -> cancel_poll E i = Some false) ->
  cancel_poll E (length chunks) = Some true ->
  let '(r, w') := _download_file E url dir w in
  r = Raise (Exception CANCELLED)
  /\ download_history w' = download_history w
  /\ files w' !! path = Some (base ++ fold_right String.append "" chunks).
Proof.
  intros path P mode headers base Hpre Hopen Hget Hcl Hne Hfalse Htrue.
  pose proof (stream_flag_set E cl total chunks rest Hcl Hne 0 Hfalse Htrue) as Hs.
  rewrite download_file_run, download_try_run. fold path.
  assert (Hrun : forall w0,
             files w0 = files w -> download_history w0 = download_history w ->
             let '(r, w') :=
               match transfer E url (file_name_of url) path P w0 with
               | (Return a, w') => (Return a, w')
               | (Raise e, w') =>
                   (Raise e,
                    if is_cancel e then w'
                    else with_history
                           (pushed (failure_record E url) (download_history w')) w')
               end in
             r = Raise (Exception CANCELLED)
             /\ download_history w' = download_history w
             /\ files w' !! path = Some (base ++ fold_right String.append "" chunks)).
  { intros w0 Hf Hh. rewrite transfer_run. fold mode. fold headers. rewrite Hf. fold base.
    rewrite Hopen, Hget, Hs. cbv zeta. cbn [fst snd].
    change (is_cancel (Exception CANCELLED)) with true. cbv iota.
    cbn [files download_history add_event with_files].
    rewrite lookup_insert_eq. auto. }
  subst P. destruct (files w !! path) as [old|] eqn:Hold.
  - rewrite (Hpre old eq_refl). apply (Hrun (add_event (HEAD url) w)); reflexivity.
  - apply (Hrun w); reflexivity.
Qed.

(** C4, as the code has it: a batch that no other batch disturbs.  From the
    moment the cancel flag is set it stays set; no task is submitted any
    more except the one for which the first loop had tested the flag just
    before, and no result is counted any more except the one for which the
    second loop had tested the flag just before; the tallies of the tasks
    counted before stand; no task that ended by reading the flag as set is
    ever counted, as a success or as a failure; and a file download that
    ends that way leaves no Failure in the ledger, and its bytes on disk. *)
Theorem cancel_stops_batch (max_workers : nat) (items : list row)
    (s s' : Batch.state) :
  Batch.alone max_workers items s ->
  Batch.steps max_workers s s' ->
  (Batch.cancel_download s = true ->
     Batch.cancel_download s' = true
     /\ (Batch.submitted s <= Batch.submitted s' <= S (Batch.submitted s))%nat
     /\ (Batch.where_ s <> Batch.Passed ->
         Batch.submitted s' = Batch.submitted s
         /\ Batch.items_left s' = Batch.items_left s)
     /\ (length (Batch.tallied s') <= S (length (Batch.tallied s)))%nat
     /\ ((forall f, Batch.where_ s <> Batch.Counting f) ->
         Batch.tallied s' = Batch.tallied s
         /\ Batch.success s' = Batch.success s
         /\ Batch.fail s' = Batch.fail s))
  /\ ((exists more, Batch.tallied s' = (Batch.tallied s ++ more)%list)
      /\ (Batch.success s <= Batch.success s')%nat
      /\ (Batch.fail s <= Batch.fail s')%nat)
  /\ (Forall (fun f => Batch.aborted f = false) (Batch.tallied s')
      /\ (Batch.success s' + Batch.fail s' = length (Batch.tallied s'))%nat)
  /\ (forall (E : env) (url dir : string) (w : world) (cl : content_length)
             (total : Z) (chunks : list string) (rest : list read),
        let path := Py.path_join dir (file_name_of url) in
        let P := match files w !! path with Some old => size_of old | None => 0%Z end in
        let mode := if (0 <? P)%Z then "ab" else "wb" in
        let headers := if (0 <? P)%Z then range_from P else [] in
        let base := if (0 <? P)%Z then default "" (files w !! path) else "" in
        (forall old, files w !! path = Some old ->
                     verdict (http_head E url) (size_of old) = false) ->
        open_error E path mode = None ->
        http_get E url headers = GetOK cl (map Chunk chunks ++ rest) ->
        int_content_length cl = Return total ->
        Forall (fun c => nonempty c = true) chunks ->
        (forall i, (i < length chunks)%nat -> cancel_poll E i = Some false) ->
        cancel_poll E (length chunks) = Some true ->
        let '(r, w') := _download_file E url dir w in
        r = Raise (Exception CANCELLED)
        /\ download_history w' = download_history w
        /\ files w' !! path = Some (base ++ fold_right String.append "" chunks)).
Proof.
  intros Halone Hsteps.
  assert (Halone' : Batch.alone max_workers items s').
  { unfold Batch.alone, Batch.steps in *. etrans; eassumption. }
  split_and!.
  - intros Hset.
    destruct (BatchFacts.steps_after_cancel max_workers s s' Hsteps Hset)
      as (Hc & Hsub & Hmono & Hleft & Htal & Htmono & Hsame).
    assert (Hs : (Batch.to_submit (Batch.where_ s) <= 1)%nat)
      by (destruct (Batch.where_ s); cbn; lia).
    assert (Ht : (Batch.to_count (Batch.where_ s) <= 1)%nat)
      by (destruct (Batch.where_ s); cbn; lia).
    split_and!; [exact Hc | exact Hmono | lia | | lia |].
    + intros Hw.
      assert (Hz : Batch.to_submit (Batch.where_ s) = 0%nat)
        by (destruct (Batch.where_ s); cbn; congruence).
      assert (Heq : Batch.submitted s' = Batch.submitted s) by lia.
      split; [exact Heq | exact (Hleft Heq)].
    + intros Hw.
      assert (Hz : Batch.to_count (Batch.where_ s) = 0%nat).
      { destruct (Batch.where_ s) as [| | |f|f|]; cbn; try reflexivity.
        exfalso. exact (Hw f eq_refl). }
      destruct Hsame as (Ha & Hb & Hd & _); [lia|]. auto.
  - apply (BatchFacts.steps_tallied max_workers s s' Hsteps).
  - apply (BatchFacts.steps_tallied max_workers s s' Hsteps).
  - apply (BatchFacts.steps_tallied max_workers s s' Hsteps).
  - apply (BatchFacts.sound_alone max_workers items s' Halone').
  - apply (BatchFacts.counted_reachable max_workers items).
    apply BatchFacts.alone_reachable. exact Halone'.
  - intros E url dir w cl total chunks rest.
    apply cancelled_download_not_recorded.
Qed.

Lemma cancel_stops_batch_witness :
  let s := demo_batch_pressed in
  let s' := Batch.goto Batch.Collecting (Batch.submit [demo_batch_item] s) in
  (Batch.submitted s = 0%nat /\ Batch.submitted s' = 1%nat
   /\ Batch.items_left s' = [demo_batch_item]
   /\ (Batch.success s' + Batch.fail s' = 0)%nat)
  /\ (let '(r, w') :=
        _download_file (demo_cancelled (Length 3000) 1000) demo_url demo_dir
          (demo_world None) in
      r = Raise (Exception CANCELLED)
      /\ download_history w' = []
      /\ files w' !! demo_path = Some (zeros 1000)).
Proof.
  intros s s'.
  assert (Halone : Batch.alone 3 [demo_batch_item; demo_batch_item] s).
  { unfold Batch.alone, Batch.steps.
    eapply rtc_l; [apply (Batch.step_submit_test 3 _ demo_batch_item [demo_batch_item]);
                   reflexivity|].
    eapply rtc_l; [apply Batch.step_cancel|]. apply rtc_refl. }
  assert (Hsteps : Batch.steps 3 s s').
  { unfold Batch.steps.
    eapply rtc_l; [apply (Batch.step_submit 3 s demo_batch_item [demo_batch_item]);
                   reflexivity|].
    eapply rtc_l; [apply (Batch.step_submit_break 3 _ demo_batch_item []);
                   reflexivity|].
    apply rtc_refl. }
  destruct (cancel_stops_batch 3 [demo_batch_item; demo_batch_item] s s' Halone Hsteps)
    as (_ & _ & [_ Hcount] & Hfile).
  split.
  - split_and!; [reflexivity | reflexivity | reflexivity | rewrite Hcount; reflexivity].
  - apply (Hfile (demo_cancelled (Length 3000) 1000) demo_url demo_dir (demo_world None)
             (Length 2000) 2000%Z [zeros 1000] [Chunk (zeros 1000)]).
    + intros old Hold. vm_compute in Hold. discriminate.
    + reflexivity.
    + reflexivity.
    + reflexivity.
    + constructor; [reflexivity | constructor].
    + intros i Hi. destruct i; [reflexivity | cbn in Hi; lia].
    + reflexivity.
Defined.

(** C4, the counterexample: in a batch of two files that no other batch
    disturbs, the first loop tests the flag for the first file and finds it
    clear, the user presses the button, and the loop goes on to submit the
    file: a task is submitted after the flag was set. *)
Lemma cancel_may_follow_the_test :
  ~ (forall s s' : Batch.state,
       Batch.alone 3 [demo_batch_item; demo_batch_item] s ->
       Batch.cancel_download s = true ->
       Batch.steps 3 s s' ->
       Batch.submitted s' = Batch.submitted s).
Proof.
  intros H.
  specialize (H demo_batch_pressed (Batch.submit [demo_batch_item] demo_batch_pressed)).
  assert (Hno : Batch.submitted (Batch.submit [demo_batch_item] demo_batch_pressed)
                = Batch.submitted demo_batch_pressed); [|discriminate Hno].
  apply H.
  - unfold Batch.alone, Batch.steps.
    eapply rtc_l; [apply (Batch.step_submit_test 3 _ demo_batch_item [demo_batch_item]);
                   reflexivity|].
    eapply rtc_l; [apply Batch.step_cancel|]. apply rtc_refl.
  - reflexivity.
  - unfold Batch.steps.
    eapply rtc_l; [apply (Batch.step_submit 3 _ demo_batch_item [demo_batch_item]);
                   reflexivity|].
    apply rtc_refl.
Qed.

(** Why the batch has to be left alone: the flag belongs to the application,
    and a second batch clears it when it begins.  Here a task is cancelled, a
    second batch begins, and the first batch counts the cancelled task as a
    failure. *)
Lemma second_batch_revives_cancelled :
  let f := {| Batch.task := 0;
              Batch.out := Batch.Returned false "a.fits" (Some CANCELLED);
              Batch.aborted := true |} in
  exists s,
    Batch.reachable 3 [demo_batch_item] s
    /\ Batch.tallied s = [f]
    /\ Batch.fail s = 1%nat
    /\ Batch.fail_list s = ["a.fits: " ++ CANCELLED].
Proof.
  intros f. eexists. split.
  - unfold Batch.reachable.
    eapply rtc_l; [left; apply (Batch.step_submit_test 3 _ demo_batch_item []);
                   reflexivity|].
    eapply rtc_l; [left; apply (Batch.step_submit 3 _ demo_batch_item []); reflexivity|].
    eapply rtc_l; [left; apply Batch.step_submit_end; reflexivity|].
    eapply rtc_l; [left; apply (Batch.step_take 3 _ 0 []); [reflexivity | cbn; lia]|].
    eapply rtc_l; [left; apply Batch.step_cancel|].
    eapply rtc_l; [left; apply (Batch.step_finish 3 _ f); [cbn; left | reflexivity]|].
    eapply rtc_l; [right; apply Batch.other_start|].
    eapply rtc_l; [left; apply (Batch.step_yield 3 _ f [] []); reflexivity|].
    eapply rtc_l; [left; apply (Batch.step_collect_test 3 _ f); reflexivity|].
    eapply rtc_l; [left; apply (Batch.step_tally 3 _ f); reflexivity|].
    apply rtc_refl.
  - split_and!; reflexivity.
Qed.

(** ** The directory of a File task *)

Lemma split_not_nil (c : ascii) (s : string) : Py.split c s <> [].
Proof.
  destruct s as [|a s]; cbn [Py.split]; [discriminate|].
  destruct (Ascii.eqb a c); [discriminate|].
  destruct (Py.split c s); discriminate.
Qed.

Lemma split_cons (c a : ascii) (s : string) :
  Py.split c (String a s) =
    if Ascii.eqb a c then "" :: Py.split c s
    else match Py.split c s with
         | x :: xs => String a x :: xs
         | [] => [String a ""]
         end.
Proof. reflexivity. Qed.

Lemma rstrip_cons (c a : ascii) (s : string) :
  Py.rstrip c (String a s) =
    match Py.rstrip c s with
    | "" => if Ascii.eqb a c then "" else String a ""
    | String b r => String a (String b r)
    end.
Proof. cbn [Py.rstrip]. destruct (Py.rstrip c s); reflexivity. Qed.

(** Stripping trailing separators only removes empty segments at the end. *)
Lemma split_rstrip (c : ascii) (s : string) :
  exists k, Py.split c s = (Py.split c (Py.rstrip c s) ++ repeat "" k)%list.
Proof.
  induction s as [|a s [k IH]].
  - exists 0%nat. reflexivity.
  - rewrite rstrip_cons, split_cons. destruct (Py.rstrip c s) as [|b r] eqn:Hr.
    + destruct (Ascii.eqb a c) eqn:Hac.
      * exists (S k). rewrite IH. reflexivity.
      * exists k. rewrite IH, split_cons, Hac. reflexivity.
    + rewrite (split_cons c a (String b r)). destruct (Ascii.eqb a c) eqn:Hac.
      * exists k. rewrite IH. reflexivity.
      * exists k. rewrite IH.
        pose proof (split_not_nil c (String b r)) as Hnn.
        destruct (Py.split c (String b r)) as [|x xs]; [contradiction|]. reflexivity.
Qed.

Lemma url_parts_of_segments (url : string) :
  url_parts_of url = filter (fun p => nonempty p = true) (Py.split Py.slash url).
Proof.
  unfold url_parts_of. destruct (split_rstrip Py.slash url) as [k ->].
  rewrite filter_app.
  assert (Hrep : filter (fun p => nonempty p = true) (repeat "" k) = []).
  { induction k as [|k IH]; [reflexivity|]. cbn [repeat].
    rewrite filter_cons_False by (cbn; discriminate). exact IH. }
  rewrite Hrep, app_nil_r. reflexivity.
Qed.

Lemma item_m2_app {A} (pre : list A) (d f : A) : Py.item_m2 (pre ++ [d; f]) = Some d.
Proof. unfold Py.item_m2. rewrite rev_app_distr. reflexivity. Qed.

Lemma replace_absent (c d x : ascii) (s : string) :
  x <> d -> ~ In x (list_ascii_of_string s) ->
  ~ In x (list_ascii_of_string (Py.replace c d s)).
Proof.
  intros Hxd. induction s as [|a s IH]; cbn; [auto|].
  intros Hnot [Heq|Hin].
  - destruct (Ascii.eqb a c); [congruence | apply Hnot; auto].
  - apply IH; [|exact Hin]. intros H. apply Hnot. auto.
Qed.

Lemma replace_removes (c d : ascii) (s : string) :
  c <> d -> ~ In c (list_ascii_of_string (Py.replace c d s)).
Proof.
  intros Hcd. induction s as [|a s IH]; cbn; [auto|].
  intros [Heq|Hin]; [|exact (IH Hin)].
  destruct (Ascii.eqb_spec a c); congruence.
Qed.

Lemma fold_replace_absent (l : list ascii) (d x : ascii) :
  x <> d ->
  forall s, ~ In x (list_ascii_of_string s) \/ In x l ->
            ~ In x (list_ascii_of_string (fold_left (fun t c => Py.replace c d t) l s)).
Proof.
  intros Hxd. induction l as [|c l IH]; intros s Hs; cbn [fold_left].
  - destruct Hs as [Hs|[]]. exact Hs.
  - apply IH. destruct Hs as [Hs|[->|Hin]].
    + left. apply replace_absent; assumption.
    + left. apply replace_removes. exact Hxd.
    + right. exact Hin.
Qed.

Lemma sanitize_clean (dir_name : string) (c : ascii) :
  In c INVALID_CHARS -> ~ In c (list_ascii_of_string (sanitize dir_name)).
Proof.
  intros Hc. unfold sanitize. apply fold_replace_absent; [|right; exact Hc].
  unfold INVALID_CHARS in Hc. cbn in Hc.
  intuition (subst; discriminate).
Qed.

Lemma startswith_slash_in (s : string) :
  Py.startswith s (String Py.slash "") = true -> In Py.slash (list_ascii_of_string s).
Proof.
  intros H. apply startswith_spec in H as [rest ->]. left. reflexivity.
Qed.

(** C9: a File task whose URL has at least two non-empty segments between
    slashes is downloaded into the directory, under the download directory,
    that bears the name of the last segment but one, percent-decoded and with
    every character of [INVALID_CHARS] replaced by [_]: one level below the
    download directory, whatever the segments before. *)
Theorem file_task_directory (E : env) (download_directory : string -> string -> M unit)
    (download_dir : string) (item : row) (w : world)
    (pre : list string) (d f : string) :
  row_type item <> DIRECTORY ->
  filter (fun p => nonempty p = true) (Py.split Py.slash (row_url item)) = (pre ++ [d; f])%list ->
  let dir_name := sanitize (Py.unquote d) in
  let file_dir := Py.path_join download_dir dir_name in
  file_dir_of E download_dir (row_url item) w =
    (match makedirs_error E file_dir with
     | Some e => Raise e
     | None => Return file_dir
     end, add_event (MAKEDIRS file_dir) w)
  /\ (makedirs_error E file_dir = None ->
      _download_item E download_directory download_dir item w =
        match _download_file E (row_url item) file_dir (add_event (MAKEDIRS file_dir) w) with
        | (Return _, w') => (Return (true, row_name item, None), w')
        | (Raise e, w') => (Return (false, row_name item, Some (str e)), w')
        end)
  /\ (forall c, In c INVALID_CHARS -> ~ In c (list_ascii_of_string dir_name))
  /\ (download_dir <> "" -> Py.endswith_char download_dir Py.slash = false ->
      file_dir = download_dir ++ "/" ++ dir_name).
Proof.
  intros Htype Hparts dir_name file_dir.
  assert (Hdir : file_dir_of E download_dir (row_url item) w =
                 (match makedirs_error E file_dir with
                  | Some e => Raise e
                  | None => Return file_dir
                  end, add_event (MAKEDIRS file_dir) w)).
  { unfold file_dir_of. rewrite url_parts_of_segments, Hparts.
    rewrite length_app. cbn [length].
    replace (2 <=? length pre + 2)%nat with true by (symmetry; apply Nat.leb_le; lia).
    rewrite item_m2_app. fold dir_name. fold file_dir.
    unfold bind, os_makedirs, bind, log.
    destruct (makedirs_error E file_dir); reflexivity. }
  split_and!.
  - exact Hdir.
  - intros Hmk. unfold _download_item, try_except.
    destruct (String.eqb_spec (row_type item) DIRECTORY) as [Heq|_]; [contradiction|].
    unfold bind at 1. unfold bind at 1. rewrite Hdir, Hmk.
    destruct (_download_file E (row_url item) file_dir _) as [[[]|e] w']; reflexivity.
  - intros c. apply sanitize_clean.
  - intros Hne Hslash. unfold file_dir, Py.path_join.
    destruct (Py.startswith dir_name (String Py.slash "")) eqn:Hst.
    + exfalso. apply (sanitize_clean (Py.unquote d) Py.slash).
      * left. reflexivity.
      * apply startswith_slash_in. exact Hst.
    + rewrite Hslash. destruct (String.eqb_spec download_dir ""); [contradiction|].
      reflexivity.
Qed.

Lemma file_task_directory_witness :
  let item := {| row_name := "a.fits"; row_type := FILE;
                 row_url := "http://psp.china-vo.org/obs/M31%3A%20core/a.fits" |} in
  let E := demo_server (Length 3000) 3000 3000 in
  file_dir_of E "/data" (row_url item) (demo_world None) =
    (Return "/data/M31_ core", add_event (MAKEDIRS "/data/M31_ core") (demo_world None))
  /\ fst <$> map_to_list (files (_download_item E (fun _ _ => ret tt) "/data" item
                                   (demo_world None)).2)
     = ["/data/M31_ core/a.fits"].
Proof.
  intros item E.
  destruct (file_task_directory E (fun _ _ => ret tt) "/data" item (demo_world None)
              ["http:"; "psp.china-vo.org"; "obs"] "M31%3A%20core" "a.fits")
    as (Hdir & Hitem & _).
  - discriminate.
  - reflexivity.
  - split.
    + exact Hdir.
    + rewrite Hitem by reflexivity. reflexivity.
Defined.

(** * More of the program *)

(** ** Navigation *)

Lemma in_tuple_false (x : string) (t : list string) : in_tuple x t = false -> x ∉ t.
Proof.
  intros H Hin. apply list_elem_of_In, in_tuple_spec in Hin. congruence.
Qed.

Lemma handle_keeps_root (base_url : string) (c : click) (tail : list string) :
  NoDup (base_url :: tail) ->
  exists tail', (handle c (base_url :: tail)).1 = base_url :: tail'
                /\ NoDup (base_url :: tail').
Proof.
  intros Hnd. destruct c as [file_type file_url| |]; cbn [handle].
  - unfold on_double_click. destruct (String.eqb file_type DIRECTORY); [|eauto].
    destruct (in_tuple file_url (base_url :: tail)) eqn:Hin; [eauto|].
    exists (tail ++ [file_url])%list. split; [reflexivity|].
    change (NoDup ((base_url :: tail) ++ [file_url])).
    apply NoDup_app. split_and!; [exact Hnd | | apply NoDup_singleton].
    intros x Hx Hx'. apply list_elem_of_singleton in Hx'. subst x.
    exact (in_tuple_false _ _ Hin Hx).
  - unfold go_back. destruct tail as [|t tail]; [eauto|].
    change (1 <? length (base_url :: t :: tail))%nat with true. cbv iota zeta.
    exists (removelast (t :: tail)). split; [reflexivity|].
    apply (sublist_NoDup _ (base_url :: t :: tail)); [exact Hnd|].
    clear Hnd. change (base_url :: removelast (t :: tail)) with (removelast (base_url :: t :: tail)).
    rewrite removelast_firstn_len. apply sublist_take.
  - eauto.
Qed.

(** X1: whatever the user clicks, the path stack keeps the base URL at its
    bottom and holds no URL twice: Back never leaves the root, and a
    directory that is already on the path is not entered again. *)
Theorem browse_keeps_root (base_url : string) (clicks : list click) :
  exists tail, browse base_url clicks = base_url :: tail
               /\ NoDup (base_url :: tail).
Proof.
  unfold browse.
  assert (Hgen : forall tail, NoDup (base_url :: tail) ->
            exists tail',
              fold_left (fun path_stack c => (handle c path_stack).1) clicks
                (base_url :: tail) = base_url :: tail'
              /\ NoDup (base_url :: tail')).
  { induction clicks as [|c clicks IH]; intros tail Hnd; cbn [fold_left]; [eauto|].
    destruct (handle_keeps_root base_url c tail Hnd) as (tail' & -> & Hnd').
    apply IH. exact Hnd'. }
  apply (Hgen []). apply NoDup_singleton.
Qed.

(** ** The sweep of the cache *)

Lemma is_cache_valid_fresh (E : env) (url : string) (w : world) (entry : cache_entry) :
  directory_cache w !! url = Some entry -> readable entry ->
  is_cache_valid E url w = (Return (fresh E entry), w).
Proof.
  intros He Hr. unfold is_cache_valid, bind, get_world, fresh, readable in *.
  rewrite He. destruct (ce_cache_time entry) as [[sec|]|]; try reflexivity.
  contradiction.
Qed.

(** What is left of an entry after the sweep. *)
Lemma cleanup_loop_run (E : env) (urls : list string) :
  forall (n : nat) (w : world),
    NoDup urls ->
    (forall url, url ∈ urls ->
       exists entry, directory_cache w !! url = Some entry /\ readable entry) ->
    exists n' c,
      cleanup_loop E urls n w = (Return n', (set_directory_cache c w).2)
      /\ (forall url,
            c !! url =
              if decide (url ∈ urls)
              then entry ← directory_cache w !! url;
                   if fresh E entry then Some entry else None
              else directory_cache w !! url)
      /\ (n < n' <-> exists url entry,
            url ∈ urls /\ directory_cache w !! url = Some entry /\ fresh E entry = false)%nat
      /\ (n <= n')%nat.
Proof.
  induction urls as [|u urls IH]; intros n w Hnd Hall.
  - exists n, (directory_cache w). split_and!.
    + destruct w; reflexivity.
    + intros url. rewrite decide_False by apply not_elem_of_nil. reflexivity.
    + split; [lia|]. intros (url & entry & Hin & _). inversion Hin.
    + lia.
  - apply NoDup_cons in Hnd as [Hu Hnd].
    destruct (Hall u ltac:(left)) as (entry & He & Hr).
    cbn [cleanup_loop]. unfold bind at 1. rewrite (is_cache_valid_fresh E u w entry He Hr).
    destruct (fresh E entry) eqn:Hf.
    + destruct (IH n w Hnd) as (n' & c & Hrun & Hc & Hn & Hle).
      { intros url Hin. apply Hall. right. exact Hin. }
      exists n', c. split_and!; [exact Hrun | | | exact Hle].
      * intros url. rewrite Hc. destruct (decide (url = u)) as [->|Hne].
        -- rewrite decide_False by exact Hu. rewrite decide_True by left.
           rewrite He. cbn. rewrite Hf. reflexivity.
        -- destruct (decide (url ∈ urls)) as [Hin|Hnin].
           ++ rewrite decide_True by (right; exact Hin). reflexivity.
           ++ rewrite decide_False; [reflexivity|].
              intros Hin. apply elem_of_cons in Hin as [?|?]; contradiction.
      * rewrite Hn. split.
        -- intros (url & e & Hin & Hl & Hfr). exists url, e. split_and!; auto. right. exact Hin.
        -- intros (url & e & Hin & Hl & Hfr).
           apply elem_of_cons in Hin as [->|Hin].
           ++ rewrite He in Hl. injection Hl as <-. congruence.
           ++ eauto.
    + unfold bind at 1. cbn [get_world]. rewrite He.
      unfold bind at 1. cbn [set_directory_cache].
      match goal with
      | |- context [cleanup_loop E urls (S n) ?w1] =>
          destruct (IH (S n) w1 Hnd) as (n' & c & Hrun & Hc & Hn & Hle)
      end.
      { intros url Hin. cbn [directory_cache].
        rewrite lookup_delete_ne by (intros ->; contradiction).
        apply Hall. right. exact Hin. }
      exists n', c. split_and!.
      * rewrite Hrun. reflexivity.
      * intros url. rewrite Hc. cbn [directory_cache].
        destruct (decide (url = u)) as [->|Hne].
        -- rewrite decide_False by exact Hu. rewrite decide_True by left.
           rewrite lookup_delete_eq, He. cbn. rewrite Hf. reflexivity.
        -- rewrite lookup_delete_ne by congruence.
           destruct (decide (url ∈ urls)) as [Hin|Hnin].
           ++ rewrite decide_True by (right; exact Hin). reflexivity.
           ++ rewrite decide_False; [reflexivity|].
              intros Hin. apply elem_of_cons in Hin as [?|?]; contradiction.
      * split; [|lia]. intros _. exists u, entry. split_and!; auto. left.
      * lia.
Qed.

(** X2: when the time stamp of every entry can be read, the sweep leaves
    exactly the entries younger than 86400 seconds, each as it was; entries
    without a time stamp go; the cache file is written exactly when some
    entry went; nothing else changes. *)
Theorem sweep_leaves_fresh_entries (E : env) (current_cache : list string) (w : world) :
  NoDup current_cache ->
  (forall url, url ∈ current_cache <-> is_Some (directory_cache w !! url)) ->
  (forall url entry, directory_cache w !! url = Some entry -> readable entry) ->
  exists saved c,
    cleanup_expired_cache E current_cache w = (Return saved, (set_directory_cache c w).2)
    /\ (forall url,
          c !! url = entry ← directory_cache w !! url;
                     if fresh E entry then Some entry else None)
    /\ (saved = true <->
          exists url entry, directory_cache w !! url = Some entry /\ fresh E entry = false).
Proof.
  intros Hnd Hkeys Hread.
  destruct (cleanup_loop_run E current_cache 0 w Hnd) as (n' & c & Hrun & Hc & Hn & _).
  { intros url Hin. apply Hkeys in Hin as [entry He]. eauto. }
  exists (0 <? n')%nat, c. split_and!.
  - unfold cleanup_expired_cache, try_except, bind. rewrite Hrun. reflexivity.
  - intros url. rewrite Hc. destruct (decide (url ∈ current_cache)) as [Hin|Hnin].
    + reflexivity.
    + destruct (directory_cache w !! url) eqn:He; [|reflexivity].
      exfalso. apply Hnin, Hkeys. eauto.
  - rewrite Nat.ltb_lt, Hn. split.
    + intros (url & entry & _ & He & Hf). eauto.
    + intros (url & entry & He & Hf). exists url, entry. split_and!; auto.
      apply Hkeys. eauto.
Qed.

Lemma sweep_leaves_fresh_entries_witness :
  exists saved c,
    cleanup_expired_cache (demo_server NoLength 0 0) [demo_listing]
      (demo_state 1600000000 0)
    = (Return saved, (set_directory_cache c (demo_state 1600000000 0)).2)
    /\ c !! demo_listing = None
    /\ saved = true.
Proof.
  destruct (sweep_leaves_fresh_entries (demo_server NoLength 0 0) [demo_listing]
              (demo_state 1600000000 0)) as (saved & c & Hrun & Hc & Hsaved).
  - constructor; [intros Hin; inversion Hin | constructor].
  - intros url. cbn [directory_cache demo_state]. split.
    + intros Hin. apply list_elem_of_singleton in Hin as ->.
      rewrite lookup_singleton_eq. eauto.
    + intros [x Hx]. destruct (decide (url = demo_listing)) as [->|Hne]; [left|].
      rewrite lookup_singleton_ne in Hx by congruence. discriminate.
  - intros url entry Hx. cbn [directory_cache demo_state] in Hx.
    destruct (decide (url = demo_listing)) as [->|Hne].
    + rewrite lookup_singleton_eq in Hx. injection Hx as <-. discriminate.
    + rewrite lookup_singleton_ne in Hx by congruence. discriminate.
  - exists saved, c. split_and!; [exact Hrun | |].
    + rewrite Hc. cbn [directory_cache demo_state]. rewrite lookup_singleton_eq.
      reflexivity.
    + apply Hsaved. eexists _, _. cbn [directory_cache demo_state].
      split; [apply lookup_singleton_eq | reflexivity].
Defined.

(** ** What a run may do to the world *)

Section Bounded.
Variable P : event -> Prop.
Variable Q : string -> Prop.

Lemma bounded_refl (w : world) : bounded P Q w w.
Proof.
  split; [|intros path _; reflexivity].
  split_and!; try reflexivity. exists []. split; [symmetry; apply app_nil_r | constructor].
Qed.

Lemma bounded_trans (w1 w2 w3 : world) :
  bounded P Q w1 w2 -> bounded P Q w2 w3 -> bounded P Q w1 w3.
Proof.
  intros [(Hc & Ht & evs & Hevs & HP) Hf] [(Hc' & Ht' & evs' & Hevs' & HP') Hf'].
  split.
  - split_and!; [congruence | congruence |].
    exists (evs ++ evs')%list. split; [|apply Forall_app; auto].
    rewrite Hevs', Hevs, app_assoc. reflexivity.
  - intros path Hp. rewrite Hf', Hf by exact Hp. reflexivity.
Qed.

Lemma keeps_ret {A} (a : A) : keeps (bounded P Q) (ret a).
Proof. intros w. apply bounded_refl. Qed.

Lemma keeps_raise {A} (e : exn) : keeps (bounded P Q) (@raise A e).
Proof. intros w. apply bounded_refl. Qed.

Lemma keeps_lift {A} (r : result A) : keeps (bounded P Q) (lift r).
Proof. intros w. apply bounded_refl. Qed.

Lemma keeps_get_world : keeps (bounded P Q) get_world.
Proof. intros w. apply bounded_refl. Qed.

Lemma keeps_bind {A B} (m : M A) (k : A -> M B) :
  keeps (bounded P Q) m -> (forall a, keeps (bounded P Q) (k a)) ->
  keeps (bounded P Q) (bind m k).
Proof.
  intros Hm Hk w. unfold bind. specialize (Hm w).
  destruct (m w) as [[a|e] w1]; cbn [snd] in *; [|exact Hm].
  apply (bounded_trans w w1); [exact Hm | apply Hk].
Qed.

Lemma keeps_try_except {A} (m : M A) (h : exn -> M A) :
  keeps (bounded P Q) m -> (forall e, keeps (bounded P Q) (h e)) ->
  keeps (bounded P Q) (try_except m h).
Proof.
  intros Hm Hh w. unfold try_except. specialize (Hm w).
  destruct (m w) as [[a|e] w1]; cbn [snd] in *; [exact Hm|].
  apply (bounded_trans w w1); [exact Hm | apply Hh].
Qed.

Lemma keeps_log (ev : event) : P ev -> keeps (bounded P Q) (log ev).
Proof.
  intros Hev w. split; [|intros path _; reflexivity].
  split_and!; try reflexivity. exists [ev]. split; [reflexivity | constructor; auto].
Qed.

Lemma keeps_set_download_history (h : list record) :
  keeps (bounded P Q) (set_download_history h).
Proof.
  intros w. split; [|intros path _; reflexivity].
  split_and!; try reflexivity. exists []. split; [symmetry; apply app_nil_r | constructor].
Qed.

Lemma keeps_set_file (path data : string) (w : world) :
  Q path -> bounded P Q w (set_files (<[path := data]> (files w)) w).2.
Proof.
  intros Hq. split.
  - split_and!; try reflexivity. exists []. split; [symmetry; apply app_nil_r | constructor].
  - intros path' Hp. cbn. apply lookup_insert_ne. intros ->. contradiction.
Qed.

Lemma keeps_write_file (path chunk : string) :
  Q path -> keeps (bounded P Q) (write_file path chunk).
Proof. intros Hq w. unfold write_file, bind, get_world. apply keeps_set_file. exact Hq. Qed.

Lemma keeps_add_download_record (E : env) (url local_path status name : string) :
  keeps (bounded P Q) (add_download_record E url local_path status name).
Proof.
  intros w. rewrite add_download_record_run.
  apply (keeps_set_download_history _ w).
Qed.

Lemma keeps_open_file (E : env) (path mode : string) :
  P (OPEN path mode) -> Q path -> keeps (bounded P Q) (open_file E path mode).
Proof.
  intros Hp Hq. unfold open_file. apply keeps_bind; [apply keeps_log; exact Hp|].
  intros _. destruct (open_error E path mode); [apply keeps_raise|].
  intros w. unfold bind, get_world.
  destruct (files w !! path); [destruct (String.eqb mode "wb")|].
  - apply keeps_set_file. exact Hq.
  - apply bounded_refl.
  - apply keeps_set_file. exact Hq.
Qed.

Lemma keeps_os_path_exists (path : string) : keeps (bounded P Q) (os_path_exists path).
Proof.
  unfold os_path_exists. apply keeps_bind; [apply keeps_get_world|].
  intros w. apply keeps_ret.
Qed.

Lemma keeps_os_path_getsize (path : string) : keeps (bounded P Q) (os_path_getsize path).
Proof.
  unfold os_path_getsize. apply keeps_bind; [apply keeps_get_world|].
  intros w. destruct (files w !! path); [apply keeps_ret | apply keeps_raise].
Qed.

Lemma keeps_is_file_complete (E : env) (url : string) (local_size : Z) :
  P (HEAD url) -> keeps (bounded P Q) (_is_file_complete E url local_size).
Proof.
  intros Hp w. rewrite is_file_complete_run. apply (keeps_log _ Hp w).
Qed.

Lemma keeps_urlopen (E : env) (url : string) (headers : list (string * string)) :
  P (GET url headers) -> keeps (bounded P Q) (urlopen E url headers).
Proof.
  intros Hp. unfold urlopen. apply keeps_bind; [apply keeps_log; exact Hp|].
  intros _. destruct (http_get E url headers); [apply keeps_raise | apply keeps_ret].
Qed.

Lemma keeps_os_makedirs (E : env) (path : string) :
  P (MAKEDIRS path) -> keeps (bounded P Q) (os_makedirs E path).
Proof.
  intros Hp. unfold os_makedirs. apply keeps_bind; [apply keeps_log; exact Hp|].
  intros _. destruct (makedirs_error E path); [apply keeps_raise | apply keeps_ret].
Qed.

Lemma keeps_read_loop (E : env) (path : string) (cl : content_length) (resume : Z)
    (body : list read) :
  Q path -> forall n, keeps (bounded P Q) (read_loop E path cl resume n body).
Proof.
  intros Hq. induction body as [|rd rest IH]; intros n; cbn [read_loop].
  - destruct (cancel_poll E n) as [[|]|]; try apply keeps_raise. apply keeps_ret.
  - destruct (cancel_poll E n) as [[|]|]; try apply keeps_raise.
    destruct rd as [chunk|e]; [|apply keeps_raise].
    destruct (nonempty chunk); [|apply keeps_ret].
    apply keeps_bind; [apply keeps_write_file; exact Hq|]. intros _.
    apply keeps_bind; [apply keeps_lift|]. intros _. apply IH.
Qed.

Lemma keeps_download_file (E : env) (url dir : string) :
  (forall ev, engine_event url dir ev -> P ev) ->
  Q (Py.path_join dir (file_name_of url)) ->
  keeps (bounded P Q) (_download_file E url dir).
Proof.
  intros Hp Hq. unfold _download_file. apply keeps_try_except.
  - unfold download_try. apply keeps_bind; [apply keeps_os_path_exists|].
    intros found. apply keeps_bind.
    + destruct found; [|apply keeps_ret].
      apply keeps_bind; [apply keeps_os_path_getsize|]. intros size.
      apply keeps_bind; [apply keeps_is_file_complete; apply Hp; reflexivity|].
      intros [|]; [|apply keeps_ret].
      apply keeps_bind; [apply keeps_add_download_record|]. intros _. apply keeps_ret.
    + intros [resume returned]. destruct returned; [apply keeps_ret|].
      unfold transfer.
      apply keeps_bind; [apply keeps_open_file; [apply Hp; reflexivity | exact Hq]|].
      intros _. apply keeps_bind; [apply keeps_urlopen; apply Hp; reflexivity|].
      intros response. apply keeps_bind; [apply keeps_read_loop; exact Hq|].
      intros _. apply keeps_bind; [apply keeps_os_path_getsize|]. intros size.
      apply keeps_bind; [apply keeps_is_file_complete; apply Hp; reflexivity|].
      intros [|]; [apply keeps_add_download_record | apply keeps_raise].
  - intros e. apply keeps_bind; [|intros _; apply keeps_raise].
    destruct (negb _); [apply keeps_add_download_record | apply keeps_ret].
Qed.
End Bounded.

(** ** The walker *)

Lemma endswith_char_app (a b : string) (c : ascii) :
  Py.endswith_char (a ++ b) c =
    match b with
    | EmptyString => Py.endswith_char a c
    | _ => Py.endswith_char b c
    end.
Proof.
  induction a as [|x a IH].
  - destruct b; reflexivity.
  - rewrite append_cons. cbn [Py.endswith_char]. rewrite IH.
    destruct b as [|y b].
    + rewrite append_empty_r. reflexivity.
    + destruct a; reflexivity.
Qed.

Lemma replace_double_slash_cons (c : ascii) (s : string) :
  replace_double_slash (String c s) =
    if Ascii.eqb c Py.slash then
      match s with
      | String c' rest =>
          if Ascii.eqb c' Py.slash then String Py.slash (replace_double_slash rest)
          else String c (replace_double_slash s)
      | EmptyString => String c EmptyString
      end
    else String c (replace_double_slash s).
Proof. reflexivity. Qed.

Lemma endswith_char_cons (x : ascii) (s : string) (c : ascii) :
  Py.endswith_char (String x s) c =
    match s with
    | EmptyString => Ascii.eqb x c
    | _ => Py.endswith_char s c
    end.
Proof. destruct s; reflexivity. Qed.

(** Replacing the doubled slashes keeps a final slash a final slash, and
    an empty string empty. *)
Lemma replace_double_slash_end (n : nat) :
  forall s, (String.length s <= n)%nat ->
    (Py.endswith_char s Py.slash = true ->
     Py.endswith_char (replace_double_slash s) Py.slash = true)
    /\ (replace_double_slash s = "" -> s = "").
Proof.
  induction n as [|n IH]; intros s Hlen.
  - destruct s; [split; auto | cbn in Hlen; lia].
  - destruct s as [|c s]; [split; auto|]. cbn [String.length] in Hlen.
    rewrite replace_double_slash_cons.
    destruct (Ascii.eqb_spec c Py.slash) as [->|Hc].
    + destruct s as [|c' rest]; [split; [reflexivity | discriminate]|].
      cbn [String.length] in Hlen.
      destruct (Ascii.eqb_spec c' Py.slash) as [->|Hc'].
      * destruct (IH rest ltac:(lia)) as [Hend Hemp]. split; [|discriminate].
        intros H. rewrite !endswith_char_cons in H. rewrite endswith_char_cons.
        destruct (replace_double_slash rest) eqn:Hr; [reflexivity|].
        apply Hend. destruct rest; [discriminate Hr | exact H].
      * destruct (IH (String c' rest) ltac:(cbn; lia)) as [Hend Hemp].
        split; [|discriminate].
        intros H. rewrite endswith_char_cons in H. rewrite endswith_char_cons.
        destruct (replace_double_slash (String c' rest)) eqn:Hr.
        -- specialize (Hemp eq_refl). discriminate.
        -- apply Hend. exact H.
    + destruct (IH s ltac:(lia)) as [Hend Hemp]. split; [|discriminate].
      intros H. rewrite endswith_char_cons in H. rewrite endswith_char_cons.
      destruct s as [|c' rest]; [exact H|].
      destruct (replace_double_slash (String c' rest)) eqn:Hr.
      * specialize (Hemp eq_refl). discriminate.
      * apply Hend. exact H.
Qed.

Lemma split_scheme_spec (s protocol rest : string) :
  split_scheme s = Some (protocol, rest) -> s = protocol ++ "://" ++ rest.
Proof.
  revert protocol. induction s as [|c s IH]; intros protocol H; [discriminate|].
  cbn [split_scheme] in H.
  destruct (Py.startswith (String c s) "://") eqn:Hst.
  - apply startswith_spec in Hst as [r Hr].
    destruct s as [|c1 [|c2 s]]; try discriminate H.
    injection H as <- <-. rewrite Hr. cbn in Hr. injection Hr as _ _ _ ->. reflexivity.
  - destruct (split_scheme s) as [[p r]|]; [|discriminate].
    injection H as <- <-. rewrite (IH p eq_refl). reflexivity.
Qed.

(** The URL a listing is asked for ends with a slash, and keeps what stood
    before its first [://]. *)
Lemma normalize_dir_url_end (dir_url : string) :
  Py.endswith_char (normalize_dir_url dir_url) Py.slash = true.
Proof.
  unfold normalize_dir_url.
  set (u := if Py.endswith_char dir_url Py.slash then dir_url
            else Py.rstrip Py.slash dir_url ++ "/").
  assert (Hu : Py.endswith_char u Py.slash = true).
  { subst u. destruct (Py.endswith_char dir_url Py.slash) eqn:H; [exact H|].
    rewrite endswith_char_app. reflexivity. }
  destruct (split_scheme u) as [[protocol rest]|] eqn:Hs.
  - apply split_scheme_spec in Hs. rewrite Hs in Hu.
    rewrite endswith_char_app in Hu. rewrite endswith_char_app.
    change ("://" ++ rest) with (String ":" (String "/" (String "/" rest))) in Hu.
    change ("://" ++ replace_double_slash rest)
      with (String ":" (String "/" (String "/" (replace_double_slash rest)))).
    cbv iota in Hu. cbv iota.
    rewrite !endswith_char_cons in Hu. rewrite !endswith_char_cons.
    destruct (replace_double_slash rest) eqn:Hr; [reflexivity|].
    rewrite <- Hr.
    apply (replace_double_slash_end (String.length rest) rest (le_n _)).
    destruct rest; [discriminate Hr | exact Hu].
  - apply (replace_double_slash_end (String.length u) u (le_n _)). exact Hu.
Qed.

Section WalkerFacts.
Variable urljoin : string -> string -> string.
Variable E : env.
Variable walker_poll : nat -> option bool.
Variable save_root : string.

Lemma keeps_check_cancel (n : nat) :
  keeps (bounded (walk_event save_root) (fun _ => True)) (check_cancel walker_poll n).
Proof.
  unfold check_cancel. destruct (walker_poll n) as [[|]|];
    [apply keeps_raise | apply keeps_ret | apply keeps_raise].
Qed.

Lemma keeps_download_directory (depth : nat) :
  forall dir_url n,
    keeps (bounded (walk_event save_root) (fun _ => True))
      (_download_directory urljoin E walker_poll depth dir_url save_root n).
Proof.
  induction depth as [|depth IH]; intros dir_url n; cbn [_download_directory].
  - apply keeps_raise.
  - destruct (url_parts_of (normalize_dir_url dir_url)); [apply keeps_raise|].
    apply keeps_bind; [apply keeps_os_makedirs; reflexivity|]. intros _.
    apply keeps_bind; [apply keeps_check_cancel|]. intros _.
    apply keeps_bind; [apply keeps_log; apply normalize_dir_url_end|]. intros _.
    destruct (http_page E (normalize_dir_url dir_url)) as [e|[a_tags|]];
      [apply keeps_raise | | apply keeps_raise].
    destruct (parse_error urljoin (normalize_dir_url dir_url) a_tags);
      [apply keeps_raise|].
    generalize (S n). clear n.
    induction (parse_anchors urljoin (normalize_dir_url dir_url) a_tags)
      as [|item rest IHitems]; intros n.
    + apply keeps_ret.
    + apply keeps_bind; [apply keeps_check_cancel|]. intros _.
      apply keeps_bind; [|intros n'; apply IHitems].
      destruct (String.eqb (file_type item) DIRECTORY); [apply IH|].
      apply keeps_bind; [|intros _; apply keeps_ret].
      apply keeps_download_file; [|exact I].
      intros [url|url headers|url|path mode|path] Hev; cbn in *;
        try exact I; contradiction.
Qed.

(** The moves of a walk, one after the other. *)
Lemma walked_refl (w : world) : walked E save_root w w.
Proof. exists []. split; [constructor | reflexivity]. Qed.

Lemma walked_trans (w1 w2 w3 : world) :
  walked E save_root w1 w2 -> walked E save_root w2 w3 -> walked E save_root w1 w3.
Proof.
  intros (m1 & H1 & ->) (m2 & H2 & ->). exists (m1 ++ m2)%list.
  split; [apply Forall_app; auto|]. unfold do_moves. rewrite fold_left_app. reflexivity.
Qed.

Lemma walked_move (mv : walk_move) (w : world) :
  listing_with_slash mv -> walked E save_root w (do_move E save_root mv w).
Proof. intros H. exists [mv]. split; [constructor; auto | reflexivity]. Qed.

Lemma walked_ret {A} (a : A) : keeps (walked E save_root) (ret a).
Proof. intros w. apply walked_refl. Qed.

Lemma walked_raise {A} (e : exn) : keeps (walked E save_root) (@raise A e).
Proof. intros w. apply walked_refl. Qed.

Lemma walked_bind {A B} (m : M A) (k : A -> M B) :
  keeps (walked E save_root) m -> (forall a, keeps (walked E save_root) (k a)) ->
  keeps (walked E save_root) (bind m k).
Proof.
  intros Hm Hk w. unfold bind. specialize (Hm w).
  destruct (m w) as [[a|e] w1]; cbn [snd] in *; [|exact Hm].
  apply (walked_trans w w1); [exact Hm | apply Hk].
Qed.

Lemma walked_check_cancel (n : nat) :
  keeps (walked E save_root) (check_cancel walker_poll n).
Proof.
  unfold check_cancel. destruct (walker_poll n) as [[|]|];
    [apply walked_raise | apply walked_ret | apply walked_raise].
Qed.

Lemma walked_os_makedirs : keeps (walked E save_root) (os_makedirs E save_root).
Proof.
  unfold os_makedirs. apply walked_bind.
  - intros w. apply (walked_move Makedirs w I).
  - intros _. destruct (makedirs_error E save_root); [apply walked_raise | apply walked_ret].
Qed.

Lemma walked_download_directory (depth : nat) :
  forall dir_url n,
    keeps (walked E save_root)
      (_download_directory urljoin E walker_poll depth dir_url save_root n).
Proof.
  induction depth as [|depth IH]; intros dir_url n; cbn [_download_directory].
  - apply walked_raise.
  - destruct (url_parts_of (normalize_dir_url dir_url)); [apply walked_raise|].
    apply walked_bind; [apply walked_os_makedirs|]. intros _.
    apply walked_bind; [apply walked_check_cancel|]. intros _.
    apply walked_bind.
    { intros w. apply (walked_move (Listing (normalize_dir_url dir_url)) w).
      apply normalize_dir_url_end. }
    intros _.
    destruct (http_page E (normalize_dir_url dir_url)) as [e|[a_tags|]];
      [apply walked_raise | | apply walked_raise].
    destruct (parse_error urljoin (normalize_dir_url dir_url) a_tags);
      [apply walked_raise|].
    generalize (S n). clear n.
    induction (parse_anchors urljoin (normalize_dir_url dir_url) a_tags)
      as [|item rest IHitems]; intros n.
    + apply walked_ret.
    + apply walked_bind; [apply walked_check_cancel|]. intros _.
      apply walked_bind; [|intros n'; apply IHitems].
      destruct (String.eqb (file_type item) DIRECTORY); [apply IH|].
      apply walked_bind; [|intros _; apply walked_ret].
      intros w. apply (walked_move (Download (full_url item)) w I).
Qed.
End WalkerFacts.

(** X4: at every depth the walker hands [save_root] itself, never a
    sub-directory of it, to [os.makedirs] and to [_download_file]: a walk is a
    series of [os.makedirs(save_root)], of requests for listings under URLs
    that end with a slash, and of [_download_file(file_url, save_root)].
    So the sub-directories of the remote tree are not made again on disk:
    [save_root] is the only directory the walk makes.  The cache of listings
    and the rows shown stay as they are. *)
Theorem walk_saves_flat (urljoin : string -> string -> string) (E : env)
    (walker_poll : nat -> option bool) (depth : nat) (dir_url save_root : string)
    (n : nat) (w : world) :
  let w' := (_download_directory urljoin E walker_poll depth dir_url save_root n w).2 in
  (exists moves,
     Forall listing_with_slash moves /\ w' = do_moves E save_root moves w)
  /\ (exists evs, trace w' = (trace w ++ evs)%list /\ Forall (walk_event save_root) evs)
  /\ directory_cache w' = directory_cache w
  /\ tree w' = tree w.
Proof.
  intros w'.
  destruct (keeps_download_directory urljoin E walker_poll save_root depth dir_url n w)
    as [(Hc & Ht & Hev) _].
  split_and!; [| exact Hev | exact Hc | exact Ht].
  apply (walked_download_directory urljoin E walker_poll save_root depth dir_url n w).
Qed.

(** ** More on one download *)

Section DownloadFacts.
Variable E : env.

(** What the transfer leaves in the trace and in the target file. *)
Lemma transfer_effect (url name path : string) (P : Z) (w0 : world) :
  let mode := if (0 <? P)%Z then "ab" else "wb" in
  let headers := if (0 <? P)%Z then range_from P else [] in
  let base := if (0 <? P)%Z then default "" (files w0 !! path) else "" in
  let w' := (transfer E url name path P w0).2 in
  exists rest,
    trace w' = (trace w0 ++ OPEN path mode :: rest)%list
    /\ (rest = [] \/ rest = [GET url headers] \/ rest = [GET url headers; HEAD url])
    /\ ((rest = [] /\ open_error E path mode <> None /\ files w' = files w0)
        \/ (open_error E path mode = None
            /\ (exists tail, rest = GET url headers :: tail)
            /\ exists data, files w' !! path = Some (base ++ data))).
Proof.
  intros mode headers base w'. subst w'. rewrite transfer_run.
  fold mode. fold headers. fold base. cbv zeta.
  destruct (open_error E path mode) as [e|] eqn:Ho.
  { exists []. cbn. split_and!; [reflexivity | auto |].
    left. split_and!; [reflexivity | discriminate | reflexivity]. }
  destruct (http_get E url headers) as [e|cl body].
  { exists [GET url headers]. cbn [snd trace files add_event with_files].
    rewrite <- app_assoc. split_and!; auto. right. split_and!; [reflexivity | eauto |].
    exists "". rewrite lookup_insert_eq, append_empty_r. reflexivity. }
  destruct (stream E cl 0 body) as [data [[]|e]]; cbn [fst snd].
  - exists [GET url headers; HEAD url].
    destruct (verdict _ _); cbn [snd trace files add_event with_files with_history];
      rewrite <- !app_assoc, lookup_insert_eq;
      (split_and!; [reflexivity | auto | right; split_and!; eauto]).
  - exists [GET url headers]. cbn [snd trace files add_event with_files].
    rewrite <- app_assoc, lookup_insert_eq.
    split_and!; [reflexivity | auto | right; split_and!; eauto].
Qed.

Lemma download_file_world (url dir : string) (w : world) :
  let w1 := (download_try E url (file_name_of url) (Py.path_join dir (file_name_of url)) w).2 in
  let w' := (_download_file E url dir w).2 in
  files w' = files w1 /\ trace w' = trace w1.
Proof.
  cbv zeta. rewrite download_file_run.
  destruct (download_try _ _ _ _ _) as [[a|e] w1]; cbn [snd]; [auto|].
  destruct (is_cancel e); auto.
Qed.

Lemma size_of_zero (s : string) : (0 <? size_of s)%Z = false -> s = "".
Proof.
  intros H. apply Z.ltb_ge in H. unfold size_of in H.
  destruct s; [reflexivity | cbn in H; lia].
Qed.
End DownloadFacts.

(** X5: a download never takes bytes away from the file it finds: what
    was on disk is the beginning of what is on disk afterwards, whether the
    download succeeds, fails or is cancelled. *)
Theorem download_keeps_old_bytes (E : env) (url dir : string) (w : world) (old : string) :
  files w !! Py.path_join dir (file_name_of url) = Some old ->
  exists data,
    files (_download_file E url dir w).2 !! Py.path_join dir (file_name_of url)
      = Some (old ++ data).
Proof.
  intros Hold. destruct (download_file_world E url dir w) as [-> _].
  rewrite download_try_run, Hold.
  destruct (verdict (http_head E url) (size_of old)).
  - exists "". cbn. rewrite append_empty_r. exact Hold.
  - destruct (transfer_effect E url (file_name_of url)
                (Py.path_join dir (file_name_of url)) (size_of old)
                (add_event (HEAD url) w)) as (rest & _ & _ & Hfiles).
    cbv zeta in Hfiles. cbn [files add_event] in Hfiles. rewrite Hold in Hfiles.
    destruct Hfiles as [(_ & _ & Hsame) | (_ & _ & data & Hdata)].
    + exists "". rewrite Hsame, append_empty_r. exact Hold.
    + exists data. rewrite Hdata.
      destruct (0 <? size_of old)%Z eqn:Hpos; [reflexivity|].
      rewrite (size_of_zero old Hpos). reflexivity.
Qed.

Lemma download_keeps_old_bytes_witness :
  exists data,
    files (_download_file (demo_server (Length 3000) 3000 2000) demo_url demo_dir
             (demo_world (Some 1000))).2
      !! Py.path_join demo_dir (file_name_of demo_url)
    = Some (zeros 1000 ++ data).
Proof.
  apply (download_keeps_old_bytes (demo_server (Length 3000) 3000 2000) demo_url
           demo_dir (demo_world (Some 1000)) (zeros 1000)).
  vm_compute. reflexivity.
Defined.

(** X6: one download runs each of these statements at most once, in this
    order: the probe of the file on disk, exactly when the file is there; the
    opening of the target, for appending exactly when the file holds bytes;
    [urlopen], with a [Range] from the size of the file exactly then; the
    probe of the result.  It never calls [urlopen] twice. *)
Theorem download_calls_in_order (E : env) (url dir : string) (w : world) :
  let path := Py.path_join dir (file_name_of url) in
  let probe := match files w !! path with Some _ => [HEAD url] | None => [] end in
  let P := match files w !! path with Some old => size_of old | None => 0%Z end in
  let mode := if (0 <? P)%Z then "ab" else "wb" in
  let headers := if (0 <? P)%Z then range_from P else [] in
  exists rest,
    trace (_download_file E url dir w).2 = (trace w ++ probe ++ rest)%list
    /\ (rest = [] \/ rest = [OPEN path mode] \/ rest = [OPEN path mode; GET url headers]
        \/ rest = [OPEN path mode; GET url headers; HEAD url]).
Proof.
  intros path probe P mode headers.
  destruct (download_file_world E url dir w) as [_ ->].
  rewrite download_try_run. fold path.
  assert (Hrun : forall P0 w0 pr,
             trace w0 = (trace w ++ pr)%list ->
             let mode := if (0 <? P0)%Z then "ab" else "wb" in
             let headers := if (0 <? P0)%Z then range_from P0 else [] in
             exists rest,
               trace (transfer E url (file_name_of url) path P0 w0).2
                 = (trace w ++ pr ++ rest)%list
               /\ (rest = [] \/ rest = [OPEN path mode]
                   \/ rest = [OPEN path mode; GET url headers]
                   \/ rest = [OPEN path mode; GET url headers; HEAD url])).
  { intros P0 w0 pr Ht mode0 headers0.
    destruct (transfer_effect E url (file_name_of url) path P0 w0)
      as (rest & Htr & Hrest & _).
    cbv zeta in Htr, Hrest. fold mode0 in Htr. fold headers0 in Hrest.
    exists (OPEN path mode0 :: rest).
    rewrite Htr, Ht, <- app_assoc. split; [reflexivity|].
    destruct Hrest as [-> | [-> | ->]]; auto. }
  subst probe P mode headers. destruct (files w !! path) as [old|].
  - destruct (verdict (http_head E url) (size_of old)).
    + exists []. cbn. split; [reflexivity | auto].
    + apply (Hrun (size_of old) (add_event (HEAD url) w) [HEAD url]). reflexivity.
  - apply (Hrun 0%Z w []). symmetry. apply app_nil_r.
Qed.

(** ** The name of the local file *)

Lemma split_app_sep (c : ascii) (a b : string) :
  Py.split c (a ++ String c b) = (Py.split c a ++ Py.split c b)%list.
Proof.
  induction a as [|x a IH].
  - change ("" ++ String c b) with (String c b).
    rewrite split_cons, Ascii.eqb_refl. reflexivity.
  - rewrite append_cons, !split_cons, IH.
    destruct (Ascii.eqb x c); [reflexivity|].
    pose proof (split_not_nil c a) as Hnn.
    destruct (Py.split c a) as [|y ys]; [contradiction | reflexivity].
Qed.

Lemma split_no_sep (c : ascii) (s : string) :
  ~ In c (list_ascii_of_string s) -> Py.split c s = [s].
Proof.
  induction s as [|x s IH]; intros Hnot; [reflexivity|].
  rewrite split_cons. destruct (Ascii.eqb_spec x c) as [->|Hne].
  - exfalso. apply Hnot. left. reflexivity.
  - rewrite IH; [reflexivity|]. intros Hin. apply Hnot. right. exact Hin.
Qed.

Lemma file_name_of_segment (base seg : string) :
  ~ In Py.slash (list_ascii_of_string seg) ->
  file_name_of (base ++ "/" ++ seg) = Py.unquote seg.
Proof.
  intros Hseg. unfold file_name_of.
  change (base ++ "/" ++ seg) with (base ++ String Py.slash seg).
  rewrite split_app_sep, (split_no_sep _ seg Hseg).
  rewrite List.last_last. reflexivity.
Qed.

(** X7: the name of the local file is the last segment of the URL,
    percent-decoded and nothing more: no character of it is replaced.  When
    the segment begins with an encoded slash the file is therefore written
    to the absolute path it decodes to, whatever the directory it was to be
    saved in. *)
Theorem file_name_is_decoded_only (base seg dir : string) :
  ~ In Py.slash (list_ascii_of_string seg) ->
  file_name_of (base ++ "/" ++ seg) = Py.unquote seg
  /\ Py.path_join dir (file_name_of (base ++ "/%2F" ++ seg)) = "/" ++ Py.unquote seg
  /\ Py.path_join dir (file_name_of (base ++ "/%2f" ++ seg)) = "/" ++ Py.unquote seg.
Proof.
  intros Hseg. split_and!.
  - apply file_name_of_segment. exact Hseg.
  - change (base ++ "/%2F" ++ seg) with (base ++ "/" ++ ("%2F" ++ seg)).
    rewrite file_name_of_segment.
    + reflexivity.
    + cbn. intros [H|[H|[H|H]]]; try discriminate. exact (Hseg H).
  - change (base ++ "/%2f" ++ seg) with (base ++ "/" ++ ("%2f" ++ seg)).
    rewrite file_name_of_segment.
    + reflexivity.
    + cbn. intros [H|[H|[H|H]]]; try discriminate. exact (Hseg H).
Qed.

Lemma file_name_is_decoded_only_witness :
  file_name_of "http://psp.china-vo.org/pspdata/a%20b.fits" = "a b.fits"
  /\ Py.path_join demo_dir (file_name_of "http://psp.china-vo.org/pspdata/%2Ftmp%2Fx")
     = "/tmp/x".
Proof.
  split.
  - refine (proj1 (file_name_is_decoded_only "http://psp.china-vo.org/pspdata"
                     "a%20b.fits" demo_dir _)).
    intros H. cbn in H. repeat (destruct H as [H|H]; [discriminate H|]). exact H.
  - refine (proj1 (proj2 (file_name_is_decoded_only "http://psp.china-vo.org/pspdata"
                            "tmp%2Fx" demo_dir _))).
    intros H. cbn in H. repeat (destruct H as [H|H]; [discriminate H|]). exact H.
Defined.

(** ** One download after another *)

(** X8: when a first download of a file that is not on disk fails at the
    request, an empty file stays behind; a later download of a file for which
    the server reports at most 1024 bytes, or no size, then takes the empty
    file for complete: it enters a Success and fetches nothing. *)
Theorem failed_start_passes_for_complete (E1 E2 : env) (url dir : string) (w : world)
    (e : exn) (cl : content_length) (n : Z) :
  let path := Py.path_join dir (file_name_of url) in
  files w !! path = None ->
  open_error E1 path "wb" = None ->
  http_get E1 url [] = GetError e ->
  http_head E2 url = HeadOK cl ->
  int_content_length cl = Return n ->
  (n <= 1024)%Z ->
  let w1 := (_download_file E1 url dir w).2 in
  files w1 !! path = Some ""
  /\ _download_file E2 url dir w1 =
       (Return tt,
        with_history (pushed (success_record E2 url dir) (download_history w1))
          (add_event (HEAD url) w1)).
Proof.
  intros path Hnone Hopen Hget Hhead Hcl Hn w1.
  assert (Hw1 : files w1 !! path = Some "").
  { subst w1. destruct (download_file_world E1 url dir w) as [-> _].
    rewrite download_try_run. fold path. rewrite Hnone, transfer_run. cbv zeta.
    change (0 <? 0)%Z with false. cbv iota. rewrite Hopen, Hget.
    cbn [snd files add_event with_files]. apply lookup_insert_eq. }
  split; [exact Hw1|].
  rewrite download_file_run, download_try_run. fold path. rewrite Hw1.
  assert (Hv : verdict (http_head E2 url) (size_of "") = true).
  { apply verdict_true. exists cl, n.
    split_and!; [exact Hhead | exact Hcl | change (size_of "") with 0%Z; lia]. }
  rewrite Hv. reflexivity.
Qed.

Lemma failed_start_passes_for_complete_witness :
  let w1 := (_download_file (demo_down (Exception "timed out")) demo_url demo_dir
               (demo_world None)).2 in
  files w1 !! Py.path_join demo_dir (file_name_of demo_url) = Some ""
  /\ (_download_file (demo_server (Length 1000) 1000 1000) demo_url demo_dir w1).1
     = Return tt.
Proof.
  intros w1.
  destruct (failed_start_passes_for_complete (demo_down (Exception "timed out"))
              (demo_server (Length 1000) 1000 1000) demo_url demo_dir (demo_world None)
              (Exception "timed out") (Length 1000) 1000%Z) as [Hfile Hrun].
  - vm_compute. reflexivity.
  - reflexivity.
  - reflexivity.
  - reflexivity.
  - reflexivity.
  - lia.
  - split; [exact Hfile|]. fold w1 in Hrun. rewrite Hrun. reflexivity.
Defined.

Lemma size_of_chunks (c : string) (chunks : list string) :
  nonempty c = true ->
  (0 <? size_of (fold_right String.append "" (c :: chunks)))%Z = true.
Proof.
  intros Hc. destruct c as [|a c]; [discriminate|].
  cbn [fold_right]. rewrite append_cons. unfold size_of. cbn [String.length].
  apply Z.ltb_lt. lia.
Qed.

(** X9: a download that is cancelled after it has written some chunks is
    taken up where it stopped: the next download of the same file, if the
    probe does not find it complete, opens the file for appending and asks
    for the bytes from the length already written, and puts what arrives
    after them. *)
Theorem cancelled_download_is_resumed (E1 E2 : env) (url dir : string) (w : world)
    (cl : content_length) (total : Z) (c : string) (chunks : list string)
    (rest : list read) :
  let path := Py.path_join dir (file_name_of url) in
  let written := fold_right String.append "" (c :: chunks) in
  files w !! path = None ->
  open_error E1 path "wb" = None ->
  http_get E1 url [] = GetOK cl (map Chunk (c :: chunks) ++ rest) ->
  int_content_length cl = Return total ->
  Forall (fun c => nonempty c = true) (c :: chunks) ->
  (forall i, (i < length (c :: chunks))%nat -> cancel_poll E1 i = Some false) ->
  cancel_poll E1 (length (c :: chunks)) = Some true ->
  verdict (http_head E2 url) (size_of written) = false ->
  open_error E2 path "ab" = None ->
  let w1 := (_download_file E1 url dir w).2 in
  let w2 := (_download_file E2 url dir w1).2 in
  files w1 !! path = Some written
  /\ (exists tail,
        trace w2 = (trace w1 ++ [HEAD url; OPEN path "ab";
                                 GET url (range_from (size_of written))] ++ tail)%list)
  /\ (exists more, files w2 !! path = Some (written ++ more)).
Proof.
  intros path written Hnone Hopen1 Hget Hcl Hne Hfalse Htrue Hv Hopen2 w1 w2.
  assert (Hw1 : files w1 !! path = Some written).
  { pose proof (cancelled_download_not_recorded E1 url dir w cl total (c :: chunks) rest)
      as Hc.
    cbv zeta in Hc. fold path in Hc. rewrite Hnone in Hc.
    change (0 <? 0)%Z with false in Hc. cbv iota in Hc.
    specialize (Hc ltac:(intros old Hold; discriminate) Hopen1 Hget Hcl Hne Hfalse Htrue).
    subst w1. destruct (_download_file E1 url dir w) as [r w1]. cbn [snd].
    destruct Hc as (_ & _ & Hc). exact Hc. }
  assert (Hpos : (0 <? size_of written)%Z = true).
  { apply size_of_chunks. apply Forall_cons in Hne as [Hc _]. exact Hc. }
  split; [exact Hw1|].
  subst w2. destruct (download_file_world E2 url dir w1) as [-> ->].
  rewrite download_try_run. fold path. rewrite Hw1, Hv.
  destruct (transfer_effect E2 url (file_name_of url) path (size_of written)
              (add_event (HEAD url) w1)) as (rst & Htr & _ & Hfiles).
  cbv zeta in Htr, Hfiles. rewrite Hpos in Htr, Hfiles.
  cbn [files trace add_event] in Htr, Hfiles. rewrite Hw1 in Hfiles.
  destruct Hfiles as [(_ & Hno & _) | (_ & [tail ->] & more & Hmore)];
    [contradiction|].
  split.
  - exists tail. rewrite Htr, <- !app_assoc. reflexivity.
  - exists more. exact Hmore.
Qed.

Lemma cancelled_download_is_resumed_witness :
  let w1 := (_download_file (demo_cancelled (Length 3000) 1000) demo_url demo_dir
               (demo_world None)).2 in
  let w2 := (_download_file (demo_server (Length 3000) 3000 2000) demo_url demo_dir
               w1).2 in
  files w1 !! Py.path_join demo_dir (file_name_of demo_url) = Some (zeros 1000)
  /\ exists more,
       files w2 !! Py.path_join demo_dir (file_name_of demo_url)
       = Some (zeros 1000 ++ more).
Proof.
  intros w1 w2.
  destruct (cancelled_download_is_resumed (demo_cancelled (Length 3000) 1000)
              (demo_server (Length 3000) 3000 2000) demo_url demo_dir (demo_world None)
              (Length 2000) 2000%Z (zeros 1000) [] [Chunk (zeros 1000)])
    as (Hfile & _ & Hmore).
  - vm_compute. reflexivity.
  - reflexivity.
  - reflexivity.
  - reflexivity.
  - constructor; [reflexivity | constructor].
  - intros i Hi. destruct i; [reflexivity | cbn in Hi; lia].
  - reflexivity.
  - reflexivity.
  - reflexivity.
  - split; [exact Hfile | exact Hmore].
Defined.

(** ** More on the cache of listings *)

Lemma strftime_fresh (E : env) :
  (now E - now E / 1000000 * 1000000 <? 86400 * 1000000)%Z = true.
Proof.
  apply Z.ltb_lt.
  pose proof (Z.mod_pos_bound (now E) 1000000 ltac:(lia)) as Hb.
  rewrite Z.mod_eq in Hb by lia. lia.
Qed.

(** X10: a load that misses the cache and succeeds stores the listing under
    the URL with its final slash and the time cut to the second.  A later
    load of that URL is served from the cache, with no request and no
    change, exactly when it comes less than 86400 seconds after that second;
    from then on it asks the server again. *)
Theorem stored_listing_is_served (urljoin : string -> string -> string) (E1 E2 : env)
    (url : string) (w w1 : world) :
  let url' := if Py.endswith_char url Py.slash then url else url ++ "/" in
  (is_cache_valid E1 url w).1 = Return false ->
  _fetch_directory_contents urljoin E1 url w = (Return None, w1) ->
  directory_cache w1 !! url' =
    Some {| ce_dir_items := Some (tree w1); ce_content := None;
            ce_cache_time := Some (strftime (now E1)) |}
  /\ trace w1 = (trace w ++ [LISTING url'])%list
  /\ if (now E2 - now E1 / 1000000 * 1000000 <? 86400 * 1000000)%Z
     then _fetch_directory_contents urljoin E2 url' w1 = (Return None, w1)
     else trace (_fetch_directory_contents urljoin E2 url' w1).2
          = (trace w1 ++ [LISTING url'])%list.
Proof.
  intros url' Hmiss Hrun.
  assert (Hend : Py.endswith_char url' Py.slash = true).
  { subst url'. destruct (Py.endswith_char url Py.slash) eqn:Hs; [exact Hs|].
    rewrite endswith_char_app. reflexivity. }
  assert (Hw1 : exists a_tags,
             w1 = (set_tree (parse_anchors urljoin url' a_tags)
                     (set_directory_cache
                        (<[url' := {| ce_dir_items := Some (parse_anchors urljoin url' a_tags);
                                      ce_content := None;
                                      ce_cache_time := Some (strftime (now E1)) |}]>
                           (directory_cache w))
                        (add_event (LISTING url') w)).2).2).
  { unfold _fetch_directory_contents, try_except, bind in Hrun.
    rewrite is_cache_valid_run, Hmiss in Hrun. cbn [get_world] in Hrun. cbv iota in Hrun.
    fold url' in Hrun. cbn [log] in Hrun.
    destruct (http_page E1 url') as [e|[a_tags|]]; cbn in Hrun; try discriminate.
    destruct (parse_error urljoin url' a_tags); cbn in Hrun; [discriminate|].
    exists a_tags. injection Hrun as <-. reflexivity. }
  destruct Hw1 as [a_tags Hw1].
  assert (Hlook : directory_cache w1 !! url' =
                  Some {| ce_dir_items := Some (tree w1); ce_content := None;
                          ce_cache_time := Some (strftime (now E1)) |}).
  { rewrite Hw1. cbn. apply lookup_insert_eq. }
  split_and!; [exact Hlook | rewrite Hw1; reflexivity |].
  unfold _fetch_directory_contents, try_except, bind.
  rewrite (is_cache_valid_fresh E2 url' w1 _ Hlook) by discriminate.
  unfold fresh. cbn [ce_cache_time strftime].
  destruct (now E2 - now E1 / 1000000 * 1000000 <? 86400 * 1000000)%Z.
  - cbn [get_world]. rewrite Hlook. cbn [ce_dir_items _render_directory set_tree ret].
    rewrite Hw1. reflexivity.
  - cbn [get_world]. rewrite Hend. cbn [log].
    destruct (http_page E2 url') as [e|[a_tags'|]]; try reflexivity.
    destruct (parse_error urljoin url' a_tags'); reflexivity.
Qed.

Lemma stored_listing_is_served_witness :
  let urljoin := fun base href : string => base ++ href in
  let E1 := demo_index [demo_anchor] in
  let E2 := demo_later 86399 in
  let E3 := demo_later 86400 in
  let w1 := (_fetch_directory_contents urljoin E1 demo_listing (demo_world None)).2 in
  trace w1 = [LISTING demo_listing]
  /\ _fetch_directory_contents urljoin E2 demo_listing w1 = (Return None, w1)
  /\ trace (_fetch_directory_contents urljoin E3 demo_listing w1).2
     = [LISTING demo_listing; LISTING demo_listing].
Proof.
  intros urljoin E1 E2 E3 w1.
  destruct (stored_listing_is_served urljoin E1 E2 demo_listing (demo_world None) w1
              eq_refl eq_refl) as (_ & Htrace & Hhit).
  destruct (stored_listing_is_served urljoin E1 E3 demo_listing (demo_world None) w1
              eq_refl eq_refl) as (_ & _ & Hmiss).
  split_and!; [exact Htrace | exact Hhit |].
  cbv zeta in Hmiss.
  change (now E3 - now E1 / 1000000 * 1000000 <? 86400 * 1000000)%Z with false in Hmiss.
  cbv iota in Hmiss. refine (eq_trans Hmiss _). rewrite Htrace. reflexivity.
Defined.

Lemma append_slash_ne (url : string) : url ++ "/" <> url.
Proof.
  intros H. apply (f_equal String.length) in H. rewrite length_append in H.
  cbn in H. lia.
Qed.



(** X12: an entry whose time stamp cannot be read blocks its listing: every
    load of that URL fails before any request is sent and leaves the world,
    the entry included, exactly as it was. *)
Theorem unreadable_entry_blocks_listing (urljoin : string -> string -> string) (E : env)
    (url : string) (w : world) (entry : cache_entry) :
  directory_cache w !! url = Some entry ->
  ce_cache_time entry = Some BadTimeString ->
  exists message, _fetch_directory_contents urljoin E url w = (Return (Some message), w).
Proof.
  intros He Hbad.
  unfold _fetch_directory_contents, try_except, bind, is_cache_valid, bind, get_world.
  rewrite He, Hbad. cbn. eauto.
Qed.

Lemma unreadable_entry_blocks_listing_witness :
  let urljoin := fun base href : string => base ++ href in
  let w := {| files := ∅;
              directory_cache :=
                {[ demo_listing := {| ce_dir_items := Some []; ce_content := None;
                                      ce_cache_time := Some BadTimeString |} ]};
              download_history := []; tree := []; trace := [] |} in
  exists message,
    _fetch_directory_contents urljoin (demo_index [demo_anchor]) demo_listing w
    = (Return (Some message), w).
Proof.
  intros urljoin w.
  apply (unreadable_entry_blocks_listing urljoin (demo_index [demo_anchor]) demo_listing w
           {| ce_dir_items := Some []; ce_content := None;
              ce_cache_time := Some BadTimeString |}).
  - apply lookup_singleton_eq.
  - reflexivity.
Defined.

(** X13: a listing is looked up under the URL as given and stored under
    the URL with a final slash.  A load of a URL without the final slash
    therefore never makes or changes the entry it looks up: what was a miss
    stays a miss, and each load sends a request again. *)
Theorem slashless_url_is_not_cached (urljoin : string -> string -> string) (E : env)
    (url : string) (w : world) :
  Py.endswith_char url Py.slash = false ->
  let w' := (_fetch_directory_contents urljoin E url w).2 in
  directory_cache w' !! url = directory_cache w !! url
  /\ (is_cache_valid E url w').1 = (is_cache_valid E url w).1.
Proof.
  intros Hslash w'.
  assert (Hsame : directory_cache w' !! url = directory_cache w !! url).
  { subst w'. unfold _fetch_directory_contents, try_except, bind.
    rewrite is_cache_valid_run, Hslash.
    destruct (is_cache_valid E url w).1 as [[|]|e]; cbn; try reflexivity.
    - destruct (directory_cache w !! url) eqn:He; cbn; [exact He|].
      destruct (http_page E _) as [e|[a_tags|]]; cbn; try exact He.
      destruct (parse_error _ _ _); cbn; [exact He|].
      rewrite lookup_insert_ne by apply append_slash_ne. exact He.
    - destruct (http_page E _) as [e|[a_tags|]]; cbn; try reflexivity.
      destruct (parse_error _ _ _); cbn; [reflexivity|].
      apply lookup_insert_ne, append_slash_ne. }
  split; [exact Hsame|].
  unfold is_cache_valid, bind, get_world. rewrite Hsame.
  destruct (directory_cache w !! url) as [entry|]; [|reflexivity].
  destruct (ce_cache_time entry) as [[sec|]|]; reflexivity.
Qed.

Lemma slashless_url_is_not_cached_witness :
  let urljoin := fun base href : string => base ++ href in
  let w' := (_fetch_directory_contents urljoin (demo_index [demo_anchor])
               "http://psp.china-vo.org/pspdata" (demo_world None)).2 in
  directory_cache w' !! "http://psp.china-vo.org/pspdata" = None
  /\ (is_cache_valid (demo_index [demo_anchor]) "http://psp.china-vo.org/pspdata" w').1
     = Return false.
Proof.
  intros urljoin w'.
  destruct (slashless_url_is_not_cached urljoin (demo_index [demo_anchor])
              "http://psp.china-vo.org/pspdata" (demo_world None) eq_refl)
    as [Hlook Hvalid].
  split; [exact Hlook | exact Hvalid].
Defined.

(** ** The entries read from a listing *)

Lemma parse_file_info_size (a : anchor) : (_parse_file_info a).2 <> "-".
Proof.
  unfold _parse_file_info.
  destruct (a_next_sibling a) as [s|]; [|discriminate].
  destruct (nonempty s); [|discriminate].
  destruct (nonempty (Py.strip s)); [|discriminate].
  destruct (Py.words (Py.strip s)) as [|p0 [|p1 [|p2 rest]]]; try discriminate.
  cbn [snd]. destruct (String.eqb p2 "-") eqn:Hp; [discriminate|].
  apply String.eqb_neq. exact Hp.
Qed.

Lemma parse_anchor_some (urljoin : string -> string -> string) (current_url : string)
    (a : anchor) (it : dir_item) :
  parse_anchor urljoin current_url a = Some it ->
  href it = a_href a
  /\ _should_skip_item (name it) (href it) = false
  /\ href it <> ""
  /\ full_url it = urljoin current_url (href it)
  /\ (file_type it = DIRECTORY <->
      Py.endswith_char (name it) Py.slash || Py.endswith_char (href it) Py.slash = true)
  /\ (file_type it = DIRECTORY \/ file_type it = FILE)
  /\ size it <> "-".
Proof.
  unfold parse_anchor.
  destruct (_should_skip_item _ (a_href a)) eqn:Hskip; [discriminate|].
  destruct (nonempty (a_href a)) eqn:Hne; [|discriminate]. cbn [negb].
  pose proof (parse_file_info_size a) as Hsize.
  destruct (_parse_file_info a) as [d s]. cbn [snd] in Hsize.
  intros H. injection H as <-. cbn [href name full_url file_type size].
  split_and!; auto.
  - intros Hh. rewrite Hh in Hne. discriminate.
  - destruct (_ || _); split; auto; discriminate.
  - destruct (_ || _); auto.
Qed.

(** X14: every entry read from a listing comes from a link that the filter
    keeps and whose target is not empty, in the order of the page; its full
    URL is the link joined to the listing's URL, it is a directory exactly
    when its name or its link ends in a slash, and its size is never the
    dash of the listing. *)
Theorem parsed_entries_are_kept_links (urljoin : string -> string -> string)
    (current_url : string) (a_tags : list anchor) :
  let dir_items := parse_anchors urljoin current_url a_tags in
  Forall (fun it =>
            _should_skip_item (name it) (href it) = false
            /\ href it <> ""
            /\ full_url it = urljoin current_url (href it)
            /\ (file_type it = DIRECTORY <->
                Py.endswith_char (name it) Py.slash
                || Py.endswith_char (href it) Py.slash = true)
            /\ (file_type it = DIRECTORY \/ file_type it = FILE)
            /\ size it <> "-") dir_items
  /\ (href <$> dir_items) `sublist_of` (a_href <$> a_tags).
Proof.
  cbv zeta. unfold parse_anchors.
  induction a_tags as [|a rest [IHall IHsub]]; [split; constructor|].
  cbn [omap list_omap fmap list_fmap].
  destruct (parse_anchor urljoin current_url a) as [it|] eqn:Hit.
  - apply parse_anchor_some in Hit as (Hhref & Hrest).
    split; [constructor; [exact Hrest | exact IHall]|].
    cbn. rewrite Hhref. apply sublist_skip. exact IHsub.
  - split; [exact IHall|]. cbn. apply sublist_cons. exact IHsub.
Qed.

(** ** More on the ledger *)

(** X15: the record of a download is entered at index 0, so deleting
    index 0 right after takes it out again; the ledger is then what it was
    only if it was below its cap: a full ledger has lost its oldest record
    for good.  Nothing but the ledger changes. *)
Theorem delete_after_add (E : env) (url local_path status name : string) (w : world) :
  let h := download_history w in
  let '(r, w') :=
    (add_download_record E url local_path status name ;; delete_record 0) w in
  r = Return tt
  /\ w' = with_history (take (MAX_HISTORY - 1) h) w
  /\ ((length h < MAX_HISTORY)%nat -> download_history w' = h)
  /\ (length h = MAX_HISTORY -> download_history w' = removelast h).
Proof.
  cbv zeta. unfold bind. rewrite add_download_record_run.
  unfold delete_record, bind, get_world. cbn [download_history with_history].
  set (h := download_history w).
  set (rec := {| r_url := url; r_local_path := local_path; r_name := name;
                 r_status := status; r_time := strftime (now E) |}).
  assert (Hp : pushed rec h = rec :: take (MAX_HISTORY - 1) h) by reflexivity.
  rewrite Hp. change (0 <? length (rec :: take (MAX_HISTORY - 1) h))%nat with true.
  cbv iota. change (delete 0 (rec :: take (MAX_HISTORY - 1) h))
    with (take (MAX_HISTORY - 1) h).
  unfold set_download_history, with_history.
  cbn [files directory_cache download_history tree trace].
  split_and!; try reflexivity.
  - intros Hlt. apply take_ge. unfold MAX_HISTORY in *. lia.
  - intros Hfull. rewrite removelast_firstn_len, Hfull. reflexivity.
Qed.

(** ** More on the names of directories *)

Lemma fold_replace_cons (l : list ascii) (d a : ascii) (s : string) :
  fold_left (fun t c => Py.replace c d t) l (String a s) =
  String (fold_left (fun x c => if Ascii.eqb x c then d else x) l a)
         (fold_left (fun t c => Py.replace c d t) l s).
Proof.
  revert a s. induction l as [|c l IH]; intros a s; cbn; [reflexivity | apply IH].
Qed.

Lemma fold_replace_nil (l : list ascii) (d : ascii) :
  fold_left (fun t c => Py.replace c d t) l EmptyString = EmptyString.
Proof. induction l as [|c l IH]; cbn; auto. Qed.

Lemma fold_char_fixed (l : list ascii) (d : ascii) :
  fold_left (fun x c => if Ascii.eqb x c then d else x) l d = d.
Proof. induction l as [|c l IH]; cbn; [reflexivity|]. destruct (Ascii.eqb d c); exact IH. Qed.

Lemma fold_char (l : list ascii) (d a : ascii) :
  fold_left (fun x c => if Ascii.eqb x c then d else x) l a =
  if existsb (Ascii.eqb a) l then d else a.
Proof.
  revert a. induction l as [|c l IH]; intros a; cbn; [reflexivity|].
  destruct (Ascii.eqb a c); cbn; [apply fold_char_fixed | apply IH].
Qed.

(** X16: the nine replacements that clean a directory name amount to one
    pass over the name: every character among [INVALID_CHARS] becomes an
    underscore and every other character stays where it is.  So the name
    keeps its length, and cleaning a clean name changes nothing. *)
Theorem sanitize_is_one_pass (dir_name : string) :
  list_ascii_of_string (sanitize dir_name) =
    map (fun a => if existsb (Ascii.eqb a) INVALID_CHARS then "_"%char else a)
        (list_ascii_of_string dir_name)
  /\ String.length (sanitize dir_name) = String.length dir_name
  /\ sanitize (sanitize dir_name) = sanitize dir_name.
Proof.
  assert (Hmap : forall s,
             list_ascii_of_string (sanitize s) =
             map (fun a => if existsb (Ascii.eqb a) INVALID_CHARS then "_"%char else a)
                 (list_ascii_of_string s)).
  { unfold sanitize. induction s as [|a s IH].
    - rewrite fold_replace_nil. reflexivity.
    - rewrite fold_replace_cons, fold_char. cbn [list_ascii_of_string map].
      f_equal. exact IH. }
  split_and!.
  - apply Hmap.
  - unfold sanitize. induction dir_name as [|a s IH].
    + rewrite fold_replace_nil. reflexivity.
    + rewrite fold_replace_cons. cbn [String.length]. f_equal. exact IH.
  - rewrite <- (string_of_list_ascii_of_string (sanitize (sanitize dir_name))).
    rewrite <- (string_of_list_ascii_of_string (sanitize dir_name)) at 2.
    f_equal. rewrite (Hmap (sanitize dir_name)), (Hmap dir_name), map_map.
    apply map_ext. intros a.
    destruct (existsb (Ascii.eqb a) INVALID_CHARS) eqn:Ha; [reflexivity|].
    rewrite Ha. reflexivity.
Qed.

(** ** The accounts of a batch *)

Module BatchAccounts.
Import Batch.

Lemma filter_other_id (t : nat) (l : list nat) :
  t ∉ l -> filter (fun x => x <> t) l = l.
Proof.
  induction l as [|x l IH]; intros Hnot; [reflexivity|].
  rewrite filter_cons_True by (intros ->; apply Hnot; left).
  f_equal. apply IH. intros Hin. apply Hnot. right. exact Hin.
Qed.

Lemma filter_remove_one (t : nat) (l : list nat) :
  NoDup l -> t ∈ l -> S (length (filter (fun x => x <> t) l)) = length l.
Proof.
  induction 1 as [|x l Hx Hnd IH]; intros Hin; [inversion Hin|].
  apply elem_of_cons in Hin as [->|Hin].
  - rewrite filter_cons_False by (intros H; apply H; reflexivity).
    rewrite filter_other_id by exact Hx. reflexivity.
  - rewrite filter_cons_True by (intros ->; contradiction).
    cbn [length]. f_equal. apply IH. exact Hin.
Qed.

Lemma accounted_start (items : list row) : accounted items (start items).
Proof.
  unfold accounted, start; cbn.
  split_and!; auto; try lia; try constructor; try (intros H; discriminate).
Qed.

Ltac fields :=
  cbn [press_cancel clear_flag goto submit take_task finish hand_over
       cancel_download pressed where_ items_left submitted queued running
       completed tallied fail fail_list in_hand];
  cbn [in_hand] in *.

Lemma accounted_step (items : list row) (max_workers : nat) (s s' : state) :
  step max_workers s s' -> accounted items s -> accounted items s'.
Proof.
  intros Hstep (Ia & Ind & Ilt & Ile & Ieq & If & Ip & Iw & Ifin).
  BatchFacts.step_cases Hstep; unfold accounted.
  - (* the button *)
    fields. split_and!; auto 10. intros H; discriminate.
  - (* the first loop finds the flag clear *)
    fields. rewrite Hw in Ile, Ieq. fields.
    split_and!; auto; intros H; discriminate.
  - (* the first loop breaks on the flag *)
    fields. rewrite Hw in Ile, Ieq. fields.
    split_and!; auto 10; intros H; discriminate.
  - (* a task is submitted *)
    fields. rewrite Hw in Ile, Ieq. fields.
    assert (Hp : ((queued s ++ [submitted s]) ++ running s)%list
                 ≡ₚ submitted s :: (queued s ++ running s)%list).
    { rewrite <- app_assoc. cbn. symmetry. apply Permutation_middle. }
    rewrite Hi in Ia. cbn [length] in Ia.
    split_and!; auto.
    + lia.
    + rewrite Hp. apply NoDup_cons. split; [|exact Ind].
      intros Hin. rewrite Forall_forall in Ilt. specialize (Ilt _ Hin). lia.
    + rewrite Hp. constructor; [lia|].
      eapply Forall_impl; [exact Ilt|]. cbn. intros; lia.
    + rewrite length_app. cbn [length]. lia.
    + intros H. specialize (Ieq H). rewrite length_app. cbn [length]. lia.
    + intros H. discriminate.
  - (* the first loop ends *)
    fields. rewrite Hw in Ile, Ieq. fields.
    split_and!; auto; intros H; discriminate.
  - (* a worker takes a task *)
    fields. rewrite Hq in Ind, Ilt, Ile, Ieq.
    assert (Hp : (rest ++ running s ++ [t])%list ≡ₚ ((t :: rest) ++ running s)%list).
    { rewrite app_assoc. cbn. symmetry. apply Permutation_cons_append. }
    split_and!; auto.
    + rewrite Hp. exact Ind.
    + rewrite Hp. exact Ilt.
    + rewrite length_app. cbn [length] in *. lia.
    + intros H. specialize (Ieq H). rewrite length_app. cbn [length] in *. lia.
    + intros H. destruct (Ifin H) as [Hset|(Hempty & _)]; [left; exact Hset|].
      rewrite Hq in Hempty. discriminate.
  - (* a worker finishes *)
    fields.
    assert (Hrun : NoDup (running s)) by (apply NoDup_app in Ind; tauto).
    pose proof (filter_remove_one (task f) (running s) Hrun Hin) as Hlen.
    pose proof Ilt as Ilt'. apply Forall_app in Ilt' as [Hltq Hltr].
    split_and!; auto.
    + apply NoDup_app in Ind as (Hndq & Hdis & _).
      apply NoDup_app. split_and!; [exact Hndq | | apply NoDup_filter; exact Hrun].
      intros x Hx Hx'. apply list_elem_of_filter in Hx' as [_ Hx'].
      exact (Hdis x Hx Hx').
    + apply Forall_app. split; [exact Hltq|].
      apply Forall_forall. intros x Hx. apply list_elem_of_filter in Hx as [_ Hx].
      rewrite Forall_forall in Hltr. auto.
    + rewrite length_app. cbn [length]. lia.
    + intros H. specialize (Ieq H). rewrite length_app. cbn [length]. lia.
    + intros H. destruct (Ifin H) as [Hset|(_ & Hempty & _)]; [left; exact Hset|].
      rewrite Hempty in Hin. inversion Hin.
  - (* a future is handed over *)
    fields. rewrite Hw in Ile, Ieq. rewrite Hcomp in Ile, Ieq. fields.
    rewrite length_app in *. cbn [length] in *.
    split_and!; auto.
    + lia.
    + intros H. specialize (Ieq H). lia.
    + destruct Iw as [H|[H|H]]; [congruence | congruence | auto].
    + intros H. discriminate.
  - (* the second loop ends *)
    fields. rewrite Hw in Ile, Ieq. fields.
    split_and!; auto.
    destruct Iw as [H|[H|H]]; [congruence | congruence | auto].
  - (* the second loop finds the flag clear *)
    fields. rewrite Hw in Ile, Ieq. fields.
    split_and!; auto.
    + destruct Iw as [H|[H|H]]; [congruence | congruence | auto].
    + intros H. discriminate.
  - (* the second loop breaks on the flag *)
    fields. rewrite Hw in Ile, Ieq. fields.
    pose proof (Ip Hc) as Hp.
    split_and!; auto.
    + lia.
    + intros H. congruence.
  - (* a result is counted *)
    rewrite Hw in Ile, Ieq, Iw. fields.
    unfold tally. destruct (out f) as [[|] file_name error | e]; fields;
      rewrite ?length_app; cbn [length];
      (split_and!; auto;
       try lia;
       try (intros H; discriminate);
       try (intros H; specialize (Ieq H); lia);
       try solve [destruct Iw as [H|[H|H]]; [discriminate | discriminate | auto]]).
Qed.

Lemma accounted_other (items : list row) (s s' : state) :
  other_batch s s' -> accounted items s -> accounted items s'.
Proof.
  intros [s0] (Ia & Ind & Ilt & Ile & Ieq & If & Ip & Iw & Ifin).
  unfold accounted. fields. split_and!; auto. intros H. discriminate.
Qed.

Lemma accounted_reachable (items : list row) (max_workers : nat) (s : state) :
  reachable max_workers items s -> accounted items s.
Proof.
  unfold reachable. intros Hs.
  assert (Hgen : forall a b, rtc (move max_workers) a b ->
                             accounted items a -> accounted items b).
  { induction 1 as [a | a b c [Hstep|Hother] Hrest IH]; intros Ha; [exact Ha | |].
    - apply IH. exact (accounted_step items max_workers a b Hstep Ha).
    - apply IH. exact (accounted_other items a b Hother Ha). }
  exact (Hgen _ _ Hs (accounted_start items)).
Qed.

End BatchAccounts.

(** X17: in every state of a batch, other batches beginning at any time,
    [fail] is the length of [fail_list], the two tallies together are no
    more than the tasks submitted, and these no more than the items: the
    count of cancelled items in the report, the items less the two tallies,
    is never negative. *)
Theorem batch_accounts_for_every_task (max_workers : nat) (items : list row)
    (s : Batch.state) :
  Batch.reachable max_workers items s ->
  Batch.fail s = length (Batch.fail_list s)
  /\ (Batch.success s + Batch.fail s <= Batch.submitted s)%nat
  /\ (Batch.submitted s + length (Batch.items_left s) = length items)%nat
  /\ (Batch.success s + Batch.fail s <= length items)%nat.
Proof.
  intros Hreach.
  destruct (BatchAccounts.accounted_reachable items max_workers s Hreach)
    as (Ha & _ & _ & Hle & _ & Hf & _ & _ & _).
  destruct (BatchFacts.counted_reachable max_workers items s Hreach) as [Hcount _].
  split_and!; auto; lia.
Qed.

Lemma batch_accounts_for_every_task_witness :
  (Batch.submitted demo_batch_running + length (Batch.items_left demo_batch_running)
   = 1)%nat
  /\ (Batch.success demo_batch_running + Batch.fail demo_batch_running <= 1)%nat.
Proof.
  assert (Hreach : Batch.reachable 3 [demo_batch_item] demo_batch_running).
  { apply BatchFacts.alone_reachable. unfold Batch.alone, Batch.steps.
    eapply rtc_l; [apply (Batch.step_submit_test 3 _ demo_batch_item []); reflexivity|].
    eapply rtc_l; [apply (Batch.step_submit 3 _ demo_batch_item []); reflexivity|].
    eapply rtc_l; [apply Batch.step_submit_end; reflexivity|].
    eapply rtc_l; [apply (Batch.step_take 3 _ 0 []); [reflexivity | cbn; lia]|].
    apply rtc_refl. }
  destruct (batch_accounts_for_every_task 3 [demo_batch_item] demo_batch_running Hreach)
    as (_ & _ & Hsub & Hcount).
  split; [exact Hsub | exact Hcount].
Defined.

(** X18: a batch that comes to its end without the flag ever having been
    set has submitted every item and counted every task: the two tallies add
    up to the number of items, and [fail_list] names every failure. *)
Theorem finished_batch_counts_all (max_workers : nat) (items : list row)
    (s : Batch.state) :
  Batch.reachable max_workers items s ->
  Batch.where_ s = Batch.Finished ->
  Batch.pressed s = false ->
  (Batch.success s + Batch.fail s = length items)%nat
  /\ Batch.fail s = length (Batch.fail_list s)
  /\ Batch.items_left s = []
  /\ Batch.submitted s = length items.
Proof.
  intros Hreach Hend Hflag.
  destruct (BatchAccounts.accounted_reachable items max_workers s Hreach)
    as (Ha & _ & _ & _ & Heq & Hf & _ & Hw & Hfin).
  destruct (BatchFacts.counted_reachable max_workers items s Hreach) as [Hcount _].
  specialize (Heq Hflag).
  destruct (Hfin Hend) as [Hset|(Hq & Hr & Hcomp)]; [congruence|].
  destruct Hw as [Hw|[Hw|[Hleft|Hset]]]; [congruence | congruence | | congruence].
  rewrite Hq, Hr, Hcomp, Hend in Heq. rewrite Hleft in Ha.
  cbn [length Batch.in_hand] in *.
  split_and!; auto; lia.
Qed.

Lemma finished_batch_counts_all_witness :
  (Batch.success demo_batch_end + Batch.fail demo_batch_end = 1)%nat
  /\ Batch.items_left demo_batch_end = [].
Proof.
  assert (Hreach : Batch.reachable 3 [demo_batch_item] demo_batch_end).
  { apply BatchFacts.alone_reachable. unfold Batch.alone, Batch.steps.
    eapply rtc_l; [apply (Batch.step_submit_test 3 _ demo_batch_item []); reflexivity|].
    eapply rtc_l; [apply (Batch.step_submit 3 _ demo_batch_item []); reflexivity|].
    eapply rtc_l; [apply Batch.step_submit_end; reflexivity|].
    eapply rtc_l; [apply (Batch.step_take 3 _ 0 []); [reflexivity | cbn; lia]|].
    eapply rtc_l; [apply (Batch.step_finish 3 _ demo_done);
                   [cbn; left | intros H; discriminate H]|].
    eapply rtc_l; [apply (Batch.step_yield 3 _ demo_done [] []); reflexivity|].
    eapply rtc_l; [apply (Batch.step_collect_test 3 _ demo_done); reflexivity|].
    eapply rtc_l; [apply (Batch.step_tally 3 _ demo_done); reflexivity|].
    eapply rtc_l; [apply Batch.step_collect_end; reflexivity|].
    apply rtc_refl. }
  destruct (finished_batch_counts_all 3 [demo_batch_item] demo_batch_end Hreach
              eq_refl eq_refl) as (Hcount & _ & Hleft & _).
  split; [exact Hcount | exact Hleft].
Defined.

(** ** A Directory task of a batch *)

(** X19: a Directory task saves under the row's name as the tree view
    shows it, joined to the download directory with its final slash taken
    off: that path is what the task hands to [os.makedirs] and to every
    [_download_file] of its walk, and it is the one directory the task
    makes.  A failure of the walk becomes the failed result of the task. *)
Theorem directory_task_saves_under_row_name (urljoin : string -> string -> string)
    (E : env) (walker_poll : nat -> option bool) (depth : nat) (download_dir : string)
    (item : row) (w : world) :
  row_type item = DIRECTORY ->
  let dir_path := Py.path_join download_dir (Py.rstrip Py.slash (row_name item)) in
  let '(r, w') :=
    _download_item E (download_directory_task urljoin E walker_poll depth)
      download_dir item w in
  (r = Return (true, row_name item, None)
   \/ exists message, r = Return (false, row_name item, Some message))
  /\ (exists moves,
        Forall listing_with_slash moves /\ w' = do_moves E dir_path moves w)
  /\ (exists evs, trace w' = (trace w ++ evs)%list /\ Forall (walk_event dir_path) evs)
  /\ directory_cache w' = directory_cache w
  /\ tree w' = tree w.
Proof.
  intros Hty dir_path. unfold _download_item. rewrite Hty, String.eqb_refl.
  fold dir_path. unfold try_except, bind, download_directory_task, bind, ret.
  destruct (keeps_download_directory urljoin E walker_poll dir_path depth
              (row_url item) 0 w) as [(Hc & Ht & Hev) _].
  pose proof (walked_download_directory urljoin E walker_poll dir_path depth
                (row_url item) 0 w) as Hmoves.
  destruct (_download_directory urljoin E walker_poll depth (row_url item) dir_path 0 w)
    as [[k|e] w1]; cbn [snd] in *.
  - split_and!; [left; reflexivity | exact Hmoves | exact Hev | exact Hc | exact Ht].
  - split_and!; [right; eexists; reflexivity | exact Hmoves | exact Hev | exact Hc
                 | exact Ht].
Qed.

Lemma directory_task_saves_under_row_name_witness :
  let urljoin := fun base href : string => base ++ href in
  let '(r, w') :=
    _download_item (demo_down (Exception "timed out"))
      (download_directory_task urljoin (demo_down (Exception "timed out"))
         (fun _ => Some false) 3)
      "/data" demo_row (demo_world None) in
  exists evs, trace w' = evs /\ Forall (walk_event "/data/2024") evs.
Proof.
  intros urljoin.
  pose proof (directory_task_saves_under_row_name urljoin
                (demo_down (Exception "timed out")) (fun _ => Some false) 3 "/data"
                demo_row (demo_world None) eq_refl) as H.
  cbv zeta in H.
  destruct (_download_item _ _ "/data" demo_row (demo_world None)) as [r w'].
  destruct H as (_ & _ & Hev & _). exact Hev.
Defined.

(** X20: a Directory task whose own listing cannot be read fails without
    a record: the ledger and the files are as before.  Only the downloads of
    files enter the ledger. *)
Theorem unread_directory_is_not_recorded (urljoin : string -> string -> string)
    (E : env) (walker_poll : nat -> option bool) (depth : nat) (download_dir : string)
    (item : row) (w : world) :
  row_type item = DIRECTORY ->
  (forall a_tags, http_page E (normalize_dir_url (row_url item)) <> PageOK (Some a_tags)) ->
  let '(r, w') :=
    _download_item E (download_directory_task urljoin E walker_poll depth)
      download_dir item w in
  (exists message, r = Return (false, row_name item, Some message))
  /\ download_history w' = download_history w
  /\ files w' = files w.
Proof.
  intros Hty Hpage. unfold _download_item. rewrite Hty, String.eqb_refl.
  unfold try_except, download_directory_task.
  destruct depth as [|depth].
  - cbn. split_and!; eauto.
  - unfold bind at 1 2. cbn [_download_directory].
    destruct (url_parts_of (normalize_dir_url (row_url item))) as [|p ps].
    + cbn. split_and!; eauto.
    + unfold bind at 1, os_makedirs, bind at 1, log.
      destruct (makedirs_error E _) as [e|]; [cbn; split_and!; eauto|].
      unfold ret at 1, bind at 1, check_cancel.
      destruct (walker_poll 0) as [[|]|]; [cbn; split_and!; eauto | | cbn; split_and!; eauto].
      unfold ret at 1, bind at 1, log.
      destruct (http_page E (normalize_dir_url (row_url item))) as [e|[a_tags|]] eqn:Hp.
      * cbn. split_and!; eauto.
      * exfalso. exact (Hpage a_tags eq_refl).
      * cbn. split_and!; eauto.
Qed.

Lemma unread_directory_is_not_recorded_witness :
  let urljoin := fun base href : string => base ++ href in
  let '(r, w') :=
    _download_item (demo_down (Exception "timed out"))
      (download_directory_task urljoin (demo_down (Exception "timed out"))
         (fun _ => Some false) 3)
      "/data" demo_row (demo_world None) in
  (exists message, r = Return (false, "2024/", Some message))
  /\ download_history w' = [].
Proof.
  intros urljoin.
  pose proof (unread_directory_is_not_recorded urljoin
                (demo_down (Exception "timed out")) (fun _ => Some false) 3 "/data"
                demo_row (demo_world None) eq_refl
                (fun a_tags H => eq_ind (PageError (Exception "timed out"))
                                   (fun p => match p with PageError _ => True
                                                        | PageOK _ => False end)
                                   I _ H)) as H.
  destruct (_download_item _ _ "/data" demo_row (demo_world None)) as [r w'].
  destruct H as (Hr & Hh & _). split; [exact Hr | exact Hh].
Defined.
